(** * A segregated free-list allocator: shallow embedding of [main.c]

    The allocator of [main.c] keeps one intrusive singly-linked free list per
    power-of-two size class ([mem_manager.free_list]), a per-class counter of
    preallocated blocks ([mem_manager.preallocated_counts]), a resolver from a
    byte count to a class index ([get_chunk_index]), a cyclic seeder
    ([preallocate_memory]) and the two operations [mm_malloc] / [mm_free].

    Conventions of the embedding:
    - [size_t] and pointers are 64-bit; they are integers in [Z] and every
      wrap-around of the source is written out with [mod 2^64];
    - [NULL] is the address [0];
    - behaviour that C leaves undefined (an index past the end of an array,
      [__builtin_ctzll(0)], a shift by the full width, a read of a word that
      was never written) is the outcome [Undefined];
    - [exit(1)] is the outcome [Exited 1];
    - the [while] loop of the seeder takes fuel, and running out of it is the
      outcome [OutOfFuel]. *)

From stdpp Require Import base numbers option list gmap.
From stdpp Require Import strings.
From Stdlib Require Import ZArith Lia.

Local Open Scope Z_scope.

(** ** Outcomes of a C function *)

Inductive outcome (A : Type) : Type :=
  | Done (a : A)
  | Exited (code : Z)
  | Undefined
  | OutOfFuel.

Arguments Done {A} a.
Arguments Exited {A} code.
Arguments Undefined {A}.
Arguments OutOfFuel {A}.

Definition bind {A B : Type} (m : outcome A) (k : A -> outcome B) : outcome B :=
  match m with
  | Done a => k a
  | Exited c => Exited c
  | Undefined => Undefined
  | OutOfFuel => OutOfFuel
  end.

Notation "'do' x <- m ; k" := (bind m (fun x => k))
  (at level 10, x name, m at level 100, k at level 200).

(** ** Machine arithmetic *)

Definition WORD : Z := 2 ^ 64.

(** Reduction of a [size_t] result. *)
Definition wrap (x : Z) : Z := x mod WORD.

(** [__builtin_clzll]: leading zero bits of a 64-bit word; undefined at 0. *)
Definition clzll (x : Z) : outcome Z :=
  if x <=? 0 then Undefined else Done (63 - Z.log2 x).

Fixpoint ctz_pos (p : positive) : Z :=
  match p with
  | xO q => 1 + ctz_pos q
  | _ => 0
  end.

(** [__builtin_ctzll]: trailing zero bits; undefined at 0. *)
Definition ctzll (x : Z) : outcome Z :=
  match x with
  | Zpos p => Done (ctz_pos p)
  | _ => Undefined
  end.

(** [1ULL << n]: undefined when [n] is not below the width. *)
Definition shl1 (n : Z) : outcome Z :=
  if (0 <=? n) && (n <? 64) then Done (2 ^ n) else Undefined.

(** ** Constants and the size-class table *)

Definition MIN_CHUNK_SIZE : Z := 4.
Definition MAX_CHUNK_SIZE : Z := 65536.
Definition CHUNK_CLASSES : Z := 14.

Definition NULL : Z := 0.

Definition chunk_sizes : list Z :=
  [4; 8; 16; 32; 64; 128; 256; 512; 1024; 2048; 4096; 8192; 16384; 32768; 65536].

(** [a[i]] for an array of [bound] elements: an index outside [0, bound) is
    undefined behaviour. *)
Definition array_get (bound : Z) (a : list Z) (i : Z) : outcome Z :=
  if (0 <=? i) && (i <? bound) then
    match a !! Z.to_nat i with
    | Some v => Done v
    | None => Undefined
    end
  else Undefined.

(** [a[i] = v], same bound. *)
Definition array_set (bound : Z) (a : list Z) (i v : Z) : outcome (list Z) :=
  if (0 <=? i) && (i <? bound) && (Z.to_nat i <? length a)%nat then
    Done (<[Z.to_nat i := v]> a)
  else Undefined.

(** [chunk_sizes[i]]: the array is declared without a size and holds the 15
    initialisers. *)
Definition chunk_size (i : Z) : outcome Z := array_get 15 chunk_sizes i.

(** [get_chunk_index], lines 33-42. *)
Definition get_chunk_index (size : Z) : outcome Z :=
  if size =? 0 then Done 0
  else
    do size' <- (if negb (Z.land size (size - 1) =? 0) then
                   do lz <- clzll size;
                   shl1 (64 - lz)
                 else Done size);
    ctzll (size' / 4).

(** ** The allocator state *)

(** [MemoryManager], lines 22-25: both arrays have [CHUNK_CLASSES] entries. *)
Record MemoryManager : Type := {
  free_list : list Z;
  preallocated_counts : list Z
}.

(** The general-purpose allocator of libc, which [main.c] calls but does not
    define.  It is modelled as a bump allocator over an arena: it hands out
    the addresses from [brk] upwards, each block spanning a multiple of 16
    bytes that exceeds the request, and answers [NULL] once the arena is
    exhausted.  [requests] logs the size of every call. *)
Record Libc : Type := {
  brk : Z;
  arena_end : Z;
  requests : list Z
}.

(** The whole machine: the global [mem_manager], the [next] word of every
    [FreeBlock] that was written (keyed by the address of the block), and
    libc. *)
Record State : Type := {
  mem_manager : MemoryManager;
  next : gmap Z Z;
  libc : Libc
}.

Definition span (n : Z) : Z := 16 * (n / 16 + 1).

Definition malloc (n : Z) (l : Libc) : Z * Libc :=
  if brk l + span n <=? arena_end l then
    (brk l, {| brk := brk l + span n; arena_end := arena_end l;
               requests := requests l ++ [n] |})
  else
    (NULL, {| brk := brk l; arena_end := arena_end l;
              requests := requests l ++ [n] |}).

(** [mem_manager = { {NULL}, {0} }], line 27. *)
Definition mem_manager_init : MemoryManager :=
  {| free_list := replicate (Z.to_nat CHUNK_CLASSES) NULL;
     preallocated_counts := replicate (Z.to_nat CHUNK_CLASSES) 0 |}.

Definition initial_state (l : Libc) : State :=
  {| mem_manager := mem_manager_init; next := ∅; libc := l |}.

Definition get_free_list (st : State) (i : Z) : outcome Z :=
  array_get CHUNK_CLASSES (free_list (mem_manager st)) i.

Definition set_free_list (st : State) (i v : Z) : outcome State :=
  do fl <- array_set CHUNK_CLASSES (free_list (mem_manager st)) i v;
  Done {| mem_manager := {| free_list := fl;
                            preallocated_counts := preallocated_counts (mem_manager st) |};
          next := next st; libc := libc st |}.

(** [block->next = v].  The store is modelled as landing in the block: the
    state does not record how many bytes [malloc] gave each block, so the
    8-byte store into the 4-byte blocks of class 0 is not told apart from the
    others, and no statement below speaks of that store being in bounds. *)
Definition store_next (st : State) (block v : Z) : State :=
  {| mem_manager := mem_manager st; next := <[block := v]> (next st); libc := libc st |}.

(** [block->next]: reading a word that was never written is undefined. *)
Definition load_next (st : State) (block : Z) : outcome Z :=
  match next st !! block with
  | Some v => Done v
  | None => Undefined
  end.

(** [mem_manager.preallocated_counts[i]++]. *)
Definition incr_preallocated (st : State) (i : Z) : outcome State :=
  do c <- array_get CHUNK_CLASSES (preallocated_counts (mem_manager st)) i;
  do pc <- array_set CHUNK_CLASSES (preallocated_counts (mem_manager st)) i (wrap (c + 1));
  Done {| mem_manager := {| free_list := free_list (mem_manager st);
                            preallocated_counts := pc |};
          next := next st; libc := libc st |}.

Definition call_malloc (n : Z) (st : State) : Z * State :=
  let (p, l) := malloc n (libc st) in
  (p, {| mem_manager := mem_manager st; next := next st; libc := l |}).

(** ** The seeder *)

(** The body of the loop of [preallocate_memory], lines 51-58, for the class
    [i] whose size [sz] the loop condition has already read. *)
Definition seed_block (i sz : Z) (st : State) : outcome State :=
  let (block, st1) := call_malloc sz st in
  if block =? NULL then Exited 1
  else
    do head <- get_free_list st1 i;
    let st2 := store_next st1 block head in
    do st3 <- set_free_list st2 i block;
    incr_preallocated st3 i.

(** The loop of [preallocate_memory], lines 49-64. *)
Fixpoint preallocate_loop (fuel : nat) (total_memory allocated_memory i : Z)
    (st : State) : outcome (Z * State) :=
  match fuel with
  | O => OutOfFuel
  | S fuel' =>
      do sz <- chunk_size i;
      if wrap (allocated_memory + sz) <=? wrap (total_memory * 2) then
        do st' <- seed_block i sz st;
        preallocate_loop fuel' total_memory (wrap (allocated_memory + sz))
          ((i + 1) mod CHUNK_CLASSES) st'
      else Done (allocated_memory, st)
  end.

(** [preallocate_memory], lines 45-67; the result is the byte count that the
    final [printf] reports. *)
Definition preallocate_memory (fuel : nat) (total_memory : Z) (st : State)
    : outcome (Z * State) :=
  preallocate_loop fuel total_memory 0 0 st.

(** ** Allocation and release *)

(** [mm_malloc], lines 70-83. *)
Definition mm_malloc (size : Z) (st : State) : outcome (Z * State) :=
  if (size =? 0) || (MAX_CHUNK_SIZE <? size) then Done (NULL, st)
  else
    do index <- get_chunk_index size;
    do head <- get_free_list st index;
    if negb (head =? NULL) then
      let block := head in
      do nxt <- load_next st block;
      do st' <- set_free_list st index nxt;
      Done (block, st')
    else
      do sz <- chunk_size index;
      Done (call_malloc sz st).

(** [mm_free], lines 86-93. *)
Definition mm_free (ptr size : Z) (st : State) : outcome State :=
  if (ptr =? NULL) || (size =? 0) || (MAX_CHUNK_SIZE <? size) then Done st
  else
    do index <- get_chunk_index size;
    let block := ptr in
    do head <- get_free_list st index;
    let st1 := store_next st block head in
    set_free_list st1 index block.

(** ** Sequences of calls *)

Inductive op : Type :=
  | Allocate (size : Z)
  | Release (ptr size : Z).

(** A call together with what it returned. *)
Inductive event : Type :=
  | Allocated (size ptr : Z)
  | Released (ptr size : Z).

Definition op_size (o : op) : Z :=
  match o with
  | Allocate size => size
  | Release _ size => size
  end.

Definition step (o : op) (st : State) : outcome (event * State) :=
  match o with
  | Allocate size =>
      do r <- mm_malloc size st;
      Done (Allocated size r.1, r.2)
  | Release ptr size =>
      do st' <- mm_free ptr size st;
      Done (Released ptr size, st')
  end.

Fixpoint run (ops : list op) (st : State) : outcome (list event * State) :=
  match ops with
  | [] => Done ([], st)
  | o :: ops' =>
      do r <- step o st;
      do r' <- run ops' r.2;
      Done (r.1 :: r'.1, r'.2)
  end.

(** The arrays of a real [MemoryManager] have [CHUNK_CLASSES] entries. *)
Definition wf_state (st : State) : Prop :=
  length (free_list (mem_manager st)) = Z.to_nat CHUNK_CLASSES /\
  length (preallocated_counts (mem_manager st)) = Z.to_nat CHUNK_CLASSES.

(** Pointers are non-null 64-bit addresses. *)
Definition libc_ok (l : Libc) : Prop :=
  0 < brk l /\ arena_end l <= WORD.

(** A call whose size does not resolve to the class [c]. *)
Definition other_class (c : Z) (o : op) : Prop :=
  get_chunk_index (op_size o) <> Done c.

(** ** Vocabulary for the seeder *)

(** The size of class [i]: [MIN_CHUNK_SIZE * 2 ^ i]. *)
Definition class_bytes (i : Z) : Z := MIN_CHUNK_SIZE * 2 ^ i.

(** The classes that [n] consecutive iterations visit when the first of them
    is iteration number [k]: iteration [m] visits class [m mod CHUNK_CLASSES]. *)
Definition round_robin_from (k n : nat) : list Z :=
  map (fun m => Z.of_nat m mod CHUNK_CLASSES) (seq k n).

Definition round_robin (n : nat) : list Z := round_robin_from 0 n.

Definition sum_bytes (classes : list Z) : Z :=
  foldr (fun i acc => class_bytes i + acc) 0 classes.

Definition occurrences (j : Z) (classes : list Z) : Z :=
  foldr (fun i acc => (if decide (i = j) then 1 else 0) + acc) 0 classes.

(** One iteration for class [i]: exactly one block of the class size comes
    from [malloc], it becomes the head of the free list of class [i] with the
    old head as its successor, and the counter of class [i] goes up by one;
    the other lists, counters and links are as before. *)
Definition seeds_one (i : Z) (st st' : State) : Prop :=
  exists block head count,
    malloc (class_bytes i) (libc st) = (block, libc st') /\
    block <> NULL /\
    free_list (mem_manager st) !! Z.to_nat i = Some head /\
    next st' = <[block := head]> (next st) /\
    free_list (mem_manager st') = <[Z.to_nat i := block]> (free_list (mem_manager st)) /\
    preallocated_counts (mem_manager st) !! Z.to_nat i = Some count /\
    preallocated_counts (mem_manager st') =
      <[Z.to_nat i := wrap (count + 1)]> (preallocated_counts (mem_manager st)).

(** One such iteration per element of [classes], in order. *)
Fixpoint seeded (classes : list Z) (st st' : State) : Prop :=
  match classes with
  | [] => st' = st
  | i :: rest => exists st1, seeds_one i st st1 /\ seeded rest st1 st'
  end.

(** ** A concrete machine for the examples *)

Definition demo_libc : Libc :=
  {| brk := 4096; arena_end := 1048576; requests := [] |}.

Definition demo_state : State := initial_state demo_libc.

(** The state in which a call returned, [demo_state] when it did not. *)
Definition state_after {A : Type} (r : outcome (A * State)) : State :=
  match r with
  | Done (_, st) => st
  | _ => demo_state
  end.

(** [demo_state] after [preallocate_memory(40)]. *)
Definition demo_seeded : State := state_after (preallocate_memory 5 40 demo_state).

(** ** The caller's protocol *)

Definition class_of (size : Z) : option Z :=
  match get_chunk_index size with
  | Done c => Some c
  | _ => None
  end.

(** [follows_protocol held evs]: along the calls [evs], the caller, who holds
    the blocks of [held] (each with the class it was allocated for), passes to
    [mm_free] only blocks it holds at that moment, with a size of the class
    the block was allocated for.  A call that [mm_free] rejects releases
    nothing. *)
Fixpoint follows_protocol (held : gmap Z Z) (evs : list event) : bool :=
  match evs with
  | [] => true
  | Allocated size ptr :: rest =>
      if ptr =? NULL then follows_protocol held rest
      else
        match class_of size with
        | Some c => follows_protocol (<[ptr := c]> held) rest
        | None => false
        end
  | Released ptr size :: rest =>
      if (ptr =? NULL) || (size =? 0) || (MAX_CHUNK_SIZE <? size) then
        follows_protocol held rest
      else
        match class_of size, held !! ptr with
        | Some c, Some c' => (c =? c') && follows_protocol (delete ptr held) rest
        | _, _ => false
        end
  end.

(** [is_list nx p l]: following the [next] words from [p] visits exactly the
    blocks of [l] and ends at [NULL]. *)
Fixpoint is_list (nx : gmap Z Z) (p : Z) (l : list Z) : Prop :=
  match l with
  | [] => p = NULL
  | b :: l' => p = b /\ b <> NULL /\ exists q, nx !! b = Some q /\ is_list nx q l'
  end.

(** The invariant of the allocator under the protocol.  [cls] records, for
    every block that [malloc] has handed out, the class it was requested
    for; [held] are the blocks in the hands of the caller. *)
Definition lists_ok (fl : list Z) (nx held cls : gmap Z Z) : Prop :=
  forall j, 0 <= j < CHUNK_CLASSES ->
    exists hd l, fl !! Z.to_nat j = Some hd /\
                 is_list nx hd l /\ NoDup l /\
                 forall p, p ∈ l -> cls !! p = Some j /\ held !! p = None.

Definition inv (st : State) (held cls : gmap Z Z) : Prop :=
  wf_state st /\
  0 < brk (libc st) /\
  (forall p c, cls !! p = Some c -> 0 < p < brk (libc st)) /\
  (forall p c, held !! p = Some c -> cls !! p = Some c) /\
  lists_ok (free_list (mem_manager st)) (next st) held cls.

(** A block released with a size of one class is handed out again only by
    an allocation of that class: the property of a sequence of calls [ops]
    started in [st]. *)
Definition no_cross_class_reuse (st : State) (ops : list op) : Prop :=
  forall evs st' t t' p s s',
    run ops st = Done (evs, st') ->
    (t < t')%nat ->
    evs !! t = Some (Released p s) -> evs !! t' = Some (Allocated s' p) ->
    p <> NULL -> 0 < s <= MAX_CHUNK_SIZE ->
    class_of s = class_of s'.

(** What a run returned, [d] when it did not return. *)
Definition value_after {A : Type} (d : A) (r : outcome (A * State)) : A :=
  match r with
  | Done (a, _) => a
  | _ => d
  end.

Definition state_of (r : outcome State) : State :=
  match r with
  | Done st => st
  | _ => demo_state
  end.

(** A run on [demo_seeded]: a block of class 4 is allocated, a call of class 1
    intervenes, the block is released, two calls of classes 1 and 2
    intervene. *)
Definition demo_block : Z := value_after NULL (mm_malloc 64 demo_seeded).
Definition demo_st1 : State := state_after (mm_malloc 64 demo_seeded).
Definition demo_ops1 : list op := [Allocate 8].
Definition demo_st2 : State := state_after (run demo_ops1 demo_st1).
Definition demo_st3 : State := state_of (mm_free demo_block 64 demo_st2).
Definition demo_ops2 : list op := [Release 4112 8; Allocate 16].
Definition demo_st4 : State := state_after (run demo_ops2 demo_st3).

(** A run on [demo_seeded] that follows the protocol. *)
Definition demo_ops : list op :=
  [Allocate 8; Release 4112 8; Allocate 7; Allocate 64].

(** A run on [demo_state] in which a block allocated for class 0 is released
    with a size of class 1. *)
Definition mismatched_ops : list op :=
  [Allocate 4; Release 4096 4; Allocate 4; Release 4096 8; Allocate 8].

(** [list_at st j l]: the free list of class [j] holds exactly the blocks
    [l], head first. *)
Definition list_at (st : State) (j : Z) (l : list Z) : Prop :=
  exists hd, free_list (mem_manager st) !! Z.to_nat j = Some hd /\
             is_list (next st) hd l.

(** [is_seg nx p l tl]: following the [next] words from [p] visits exactly
    the blocks of [l] and arrives at [tl]. *)
Fixpoint is_seg (nx : gmap Z Z) (p : Z) (l : list Z) (tl : Z) : Prop :=
  match l with
  | [] => p = tl
  | b :: l' => p = b /\ b <> NULL /\ exists q, nx !! b = Some q /\ is_seg nx q l' tl
  end.

(** [st] with [fl] for its array of list heads. *)
Definition with_free_list (st : State) (fl : list Z) : State :=
  {| mem_manager := {| free_list := fl;
                       preallocated_counts := preallocated_counts (mem_manager st) |};
     next := next st; libc := libc st |}.

(** The blocks in the hands of the caller after one more call: a non-null
    result of [mm_malloc] is added with the class of the request, a block
    that [mm_free] accepted is removed. *)
Definition held_step (held : gmap Z Z) (ev : event) : gmap Z Z :=
  match ev with
  | Allocated size ptr =>
      if ptr =? NULL then held
      else
        match class_of size with
        | Some c => <[ptr := c]> held
        | None => held
        end
  | Released ptr size =>
      if (ptr =? NULL) || (size =? 0) || (MAX_CHUNK_SIZE <? size) then held
      else delete ptr held
  end.

Definition held_after (held : gmap Z Z) (evs : list event) : gmap Z Z :=
  foldl held_step held evs.

(** ** The workload generator *)

(** The loop of [generate_random_sizes], lines 101-110.  [rand k] is what the
    [k]-th call of libc's [rand()] returns after [srand(time(NULL))], a
    non-negative [int]; [sizes] is the caller's buffer of [max_count] entries
    and [requested_counts] its array of [CHUNK_CLASSES] counters. *)
Fixpoint generate_loop (fuel : nat) (rand : nat -> nat) (total_size max_count : Z)
    (calls : nat) (num_sizes used_memory : Z) (sizes requested_counts : list Z)
    : outcome (Z * list Z * list Z) :=
  match fuel with
  | O => OutOfFuel
  | S fuel' =>
      if (used_memory <? total_size) && (num_sizes <? max_count) then
        let rand_index := Z.of_nat (rand calls) mod CHUNK_CLASSES in
        do chunk <- chunk_size rand_index;
        if total_size <? wrap (used_memory + chunk) then
          Done (num_sizes, sizes, requested_counts)
        else
          do sizes' <- array_set max_count sizes num_sizes chunk;
          do c <- array_get CHUNK_CLASSES requested_counts rand_index;
          do counts' <- array_set CHUNK_CLASSES requested_counts rand_index (wrap (c + 1));
          generate_loop fuel' rand total_size max_count (S calls)
            (wrap (num_sizes + 1)) (wrap (used_memory + chunk)) sizes' counts'
      else Done (num_sizes, sizes, requested_counts)
  end.

(** [generate_random_sizes], lines 96-113: the count it returns, the buffer
    and the counters as it leaves them. *)
Definition generate_random_sizes (fuel : nat) (rand : nat -> nat) (total_size : Z)
    (sizes : list Z) (max_count : Z) (requested_counts : list Z)
    : outcome (Z * list Z * list Z) :=
  generate_loop fuel rand total_size max_count 0 0 0 sizes requested_counts.

(** A size that the seeder stocks: [4 * 2 ^ i] for a class [i] below
    [CHUNK_CLASSES]. *)
Definition seeded_size (sz : Z) : Prop :=
  exists i, 0 <= i < CHUNK_CLASSES /\ sz = 4 * 2 ^ i.

(** A stream for the examples. *)
Definition demo_rand (k : nat) : nat := (3 * k + 1)%nat.

(** ** The callers of the allocator *)

(** The first loop of the timed phase of [benchmark], lines 160-162:
    [ptrs[i] = mm_malloc(sizes[i])] for every generated size. *)
Fixpoint alloc_all (sizes : list Z) (st : State) : outcome (list Z * State) :=
  match sizes with
  | [] => Done ([], st)
  | size :: rest =>
      do r <- mm_malloc size st;
      do r' <- alloc_all rest r.2;
      Done (r.1 :: r'.1, r'.2)
  end.

(** The second loop, lines 163-165: [mm_free(ptrs[i], sizes[i])]. *)
Fixpoint free_all (ptrs sizes : list Z) (st : State) : outcome State :=
  match ptrs, sizes with
  | ptr :: ptrs', size :: sizes' =>
      do st' <- mm_free ptr size st;
      free_all ptrs' sizes' st'
  | _, _ => Done st
  end.

(** The loop of [thread_alloc], lines 228-231, run by one thread: [n] times
    [ptr = mm_malloc(128); mm_free(ptr, 128)]. *)
Fixpoint thread_alloc_loop (n : nat) (st : State) : outcome State :=
  match n with
  | O => Done st
  | S n' =>
      do r <- mm_malloc 128 st;
      do st' <- mm_free r.1 128 r.2;
      thread_alloc_loop n' st'
  end.

Definition thread_alloc (st : State) : outcome State :=
  thread_alloc_loop (Z.to_nat 100000) st.

(** ** The command line *)

Definition TOTAL_MEMORY : Z := 10 * 1024 * 1024.

(** What [main] does, as the sequence of its prints and of the calls it
    starts: the stress utilities ([clear_cpu_cache], the fragmentation code
    of [-f], [force_page_faults], [consume_memory], [test_multithreading])
    and [benchmark]. *)
Inductive action : Type :=
  | PrintUsage
  | ClearCpuCache
  | FragmentMemory
  | ForcePageFaults
  | ConsumeMemory
  | TestMultithreading
  | PrintUnknownOption (arg : string)
  | RunBenchmark (total_memory : Z).

(** How [main] ends: it returns a code, or one of its calls does not come
    back (it ends the process, as [exit(1)] in [preallocate_memory] does, it
    crashes, or it never ends). *)
Inductive ending : Type :=
  | Returned (code : Z)
  | NoReturn.

(** The [k]-th call that [main] makes: [returns k] tells whether it comes
    back; [rest] is the remainder of the loop, for the calls from [k + 1]
    on. *)
Definition after_call (returns : nat -> bool) (k : nat) (a : action)
    (rest : nat -> list action * option ending) : list action * option ending :=
  if returns k then (a :: (rest (S k)).1, (rest (S k)).2)
  else ([a], Some NoReturn).

(** The loop over [argv[1..]], lines 259-281, when [k] calls have been made:
    the actions started, and how the loop ended when it did not run to its
    end. *)
Fixpoint main_loop (returns : nat -> bool) (args : list string) (k : nat)
    : list action * option ending :=
  match args with
  | [] => ([], None)
  | arg :: rest =>
      if String.eqb arg "-c" then
        after_call returns k ClearCpuCache (main_loop returns rest)
      else if String.eqb arg "-f" then
        after_call returns k FragmentMemory (main_loop returns rest)
      else if String.eqb arg "-p" then
        after_call returns k ForcePageFaults (main_loop returns rest)
      else if String.eqb arg "-m" then
        after_call returns k ConsumeMemory (main_loop returns rest)
      else if String.eqb arg "-t" then
        after_call returns k TestMultithreading (main_loop returns rest)
      else if String.eqb arg "-b" then main_loop returns rest k
      else ([PrintUnknownOption arg], Some (Returned 1))
  end.

(** [main], lines 246-285, started as [prog args...] (so [argc] is
    [1 + length args]): the actions started and the ending. *)
Definition main (returns : nat -> bool) (prog : string) (args : list string)
    : list action * ending :=
  if 1 + Z.of_nat (length args) <? 2 then ([PrintUsage], Returned 1)
  else
    match main_loop returns args 0 with
    | (acts, Some e) => (acts, e)
    | (acts, None) =>
        (acts ++ [RunBenchmark TOTAL_MEMORY],
         if returns (length acts) then Returned 0 else NoReturn)
    end.

(** The options [main] knows. *)
Definition known_option (arg : string) : Prop :=
  arg ∈ ["-c"; "-f"; "-p"; "-m"; "-t"; "-b"].

(** The number of calls the loop makes for [args]: one per argument other
    than [-b]. *)
Definition stress_calls (args : list string) : nat :=
  length (filter (fun arg => arg <> "-b") args).

(** * Properties *)

(** ** Outcomes *)

Lemma bind_Done {A B : Type} (m : outcome A) (k : A -> outcome B) (b : B) :
  bind m k = Done b -> exists a, m = Done a /\ k a = Done b.
Proof. destruct m; simpl; intros H; try discriminate. eauto. Qed.

Ltac inv_bind H :=
  let x := fresh "x" in
  let Hx := fresh "Hx" in
  apply bind_Done in H; destruct H as (x & Hx & H).

(** ** Arrays *)

Lemma array_get_Done bound a i v :
  array_get bound a i = Done v ->
  0 <= i < bound /\ a !! Z.to_nat i = Some v.
Proof.
  unfold array_get. intros H.
  destruct (0 <=? i) eqn:E1; simpl in H; [|discriminate].
  destruct (i <? bound) eqn:E2; simpl in H; [|discriminate].
  destruct (a !! Z.to_nat i) eqn:E3; [|discriminate].
  injection H as ->. split; [lia|done].
Qed.

Lemma array_get_lookup bound a i v :
  0 <= i < bound -> a !! Z.to_nat i = Some v -> array_get bound a i = Done v.
Proof.
  intros Hi Hl. unfold array_get.
  replace (0 <=? i) with true by lia. replace (i <? bound) with true by lia.
  simpl. by rewrite Hl.
Qed.

Lemma array_get_out_of_bounds bound a i :
  bound <= i -> array_get bound a i = Undefined.
Proof.
  intros Hi. unfold array_get.
  replace (i <? bound) with false by lia. by rewrite andb_false_r.
Qed.

Lemma array_set_Done bound a i v a' :
  array_set bound a i v = Done a' ->
  0 <= i < bound /\ (Z.to_nat i < length a)%nat /\ a' = <[Z.to_nat i := v]> a.
Proof.
  unfold array_set. intros H.
  destruct (0 <=? i) eqn:E1; simpl in H; [|discriminate].
  destruct (i <? bound) eqn:E2; simpl in H; [|discriminate].
  destruct (Z.to_nat i <? length a)%nat eqn:E3; simpl in H; [|discriminate].
  injection H as <-. apply Nat.ltb_lt in E3. repeat split; [lia|lia|done].
Qed.

Lemma array_set_in_range bound a i v :
  0 <= i < bound -> (Z.to_nat i < length a)%nat ->
  array_set bound a i v = Done (<[Z.to_nat i := v]> a).
Proof.
  intros Hi Hl. unfold array_set.
  replace (0 <=? i) with true by lia. replace (i <? bound) with true by lia.
  apply Nat.ltb_lt in Hl. by rewrite Hl.
Qed.

Lemma chunk_size_Done i sz :
  chunk_size i = Done sz -> 0 <= i <= 14 /\ sz = 4 * 2 ^ i.
Proof.
  intros H. apply array_get_Done in H as [Hi Hl].
  assert (i = 0 \/ i = 1 \/ i = 2 \/ i = 3 \/ i = 4 \/ i = 5 \/ i = 6 \/ i = 7 \/
          i = 8 \/ i = 9 \/ i = 10 \/ i = 11 \/ i = 12 \/ i = 13 \/ i = 14) as Hc by lia.
  split; [lia|].
  repeat (destruct Hc as [-> | Hc]; [simpl in Hl; by injection Hl as <- |]).
  subst i. simpl in Hl. by injection Hl as <-.
Qed.

Lemma chunk_size_in_range i :
  0 <= i <= 14 -> chunk_size i = Done (4 * 2 ^ i).
Proof.
  intros Hi.
  assert (i = 0 \/ i = 1 \/ i = 2 \/ i = 3 \/ i = 4 \/ i = 5 \/ i = 6 \/ i = 7 \/
          i = 8 \/ i = 9 \/ i = 10 \/ i = 11 \/ i = 12 \/ i = 13 \/ i = 14) as Hc by lia.
  repeat (destruct Hc as [-> | Hc]; [reflexivity |]).
  by subst i.
Qed.

(** ** The size-class resolver *)

Example get_chunk_index_100 : get_chunk_index 100 = Done 5.
Proof. reflexivity. Qed.

Example get_chunk_index_64 : get_chunk_index 64 = Done 4.
Proof. reflexivity. Qed.

Example get_chunk_index_3 : get_chunk_index 3 = Done 0.
Proof. reflexivity. Qed.

Lemma land_pred_nonzero k s :
  0 <= k -> 2 ^ k < s < 2 ^ (k + 1) -> Z.land s (s - 1) <> 0.
Proof.
  intros Hk Hs Hz.
  assert (Z.log2 s = k) as H1 by (apply Z.log2_unique; lia).
  assert (Z.log2 (s - 1) = k) as H2 by (apply Z.log2_unique; lia).
  assert (Z.testbit (Z.land s (s - 1)) k = true) as Hb.
  { rewrite Z.land_spec.
    assert (Z.testbit s k = true) as -> by (rewrite <- H1; apply Z.bit_log2; lia).
    assert (Z.testbit (s - 1) k = true) as ->
      by (rewrite <- H2; apply Z.bit_log2; lia).
    done. }
  rewrite Hz, Z.bits_0 in Hb. discriminate.
Qed.

(** Between two consecutive powers of two the resolver rounds up to the upper
    one. *)
Lemma get_chunk_index_round_up k s :
  1 <= k <= 16 -> 2 ^ k < s < 2 ^ (k + 1) ->
  get_chunk_index s = Done (k - 1).
Proof.
  intros Hk Hs.
  assert (0 < 2 ^ k) by (apply Z.pow_pos_nonneg; lia).
  assert (Z.log2 s = k) as Hl by (apply Z.log2_unique; lia).
  pose proof (land_pred_nonzero k s ltac:(lia) Hs) as Hn.
  unfold get_chunk_index, clzll.
  replace (s =? 0) with false by lia.
  replace (Z.land s (s - 1) =? 0) with false by lia.
  replace (s <=? 0) with false by lia.
  simpl. rewrite Hl. clear Hs Hl Hn H.
  assert (k = 1 \/ k = 2 \/ k = 3 \/ k = 4 \/ k = 5 \/ k = 6 \/ k = 7 \/ k = 8 \/
          k = 9 \/ k = 10 \/ k = 11 \/ k = 12 \/ k = 13 \/ k = 14 \/ k = 15 \/
          k = 16) as Hc by lia.
  repeat (destruct Hc as [-> | Hc]; [reflexivity |]).
  by subst k.
Qed.

(** On an exact power of two from 4 up the resolver takes the difference of
    the logarithms. *)
Lemma get_chunk_index_pow2 k :
  2 <= k <= 16 -> get_chunk_index (2 ^ k) = Done (k - 2).
Proof.
  intros Hk.
  assert (k = 2 \/ k = 3 \/ k = 4 \/ k = 5 \/ k = 6 \/ k = 7 \/ k = 8 \/
          k = 9 \/ k = 10 \/ k = 11 \/ k = 12 \/ k = 13 \/ k = 14 \/ k = 15 \/
          k = 16) as Hc by lia.
  repeat (destruct Hc as [-> | Hc]; [reflexivity |]).
  by subst k.
Qed.

(** Class sufficiency on the sizes from 3 up: the class returned is the
    smallest one whose size [4 * 2 ^ i] holds the request. *)
Lemma get_chunk_index_smallest_class s :
  3 <= s <= 65536 ->
  exists i, get_chunk_index s = Done i /\ 0 <= i <= 14 /\
            chunk_size i = Done (4 * 2 ^ i) /\
            s <= 4 * 2 ^ i /\
            (forall j, 0 <= j < i -> 4 * 2 ^ j < s).
Proof.
  intros Hs.
  pose proof (Z.log2_spec s ltac:(lia)) as Hspec.
  assert (1 <= Z.log2 s <= 16) as Hk.
  { split.
    - change 1 with (Z.log2 3). apply Z.log2_le_mono. lia.
    - change 16 with (Z.log2 65536). apply Z.log2_le_mono. lia. }
  set (k := Z.log2 s) in *.
  replace (Z.succ k) with (k + 1) in Hspec by lia.
  assert (forall a b, 0 <= a < b -> 2 ^ a < 2 ^ b) as Hmono
    by (intros; apply Z.pow_lt_mono_r; lia).
  assert (forall a, 0 <= a -> 4 * 2 ^ a = 2 ^ (a + 2)) as Hfour
    by (intros; rewrite Z.pow_add_r by lia; change (2 ^ 2) with 4; lia).
  destruct (decide (s = 2 ^ k)) as [Heq | Hne].
  - assert (k <> 1) by (intros ->; simpl in Heq; lia).
    exists (k - 2). rewrite Heq at 1.
    rewrite get_chunk_index_pow2 by lia.
    rewrite chunk_size_in_range by lia.
    repeat split; try lia.
    + rewrite Hfour by lia. replace (k - 2 + 2) with k by lia. lia.
    + intros j Hj. rewrite Hfour by lia.
      pose proof (Hmono (j + 2) k ltac:(lia)). lia.
  - assert (k <> 16) as Hk16.
    { intros E. rewrite E in Hspec, Hne. change (2 ^ 16) with 65536 in *. lia. }
    exists (k - 1).
    rewrite (get_chunk_index_round_up k s) by lia.
    rewrite chunk_size_in_range by lia.
    repeat split; try lia.
    + rewrite Hfour by lia. replace (k - 1 + 2) with (k + 1) by lia. lia.
    + intros j Hj. rewrite Hfour by lia.
      destruct (decide (j + 2 = k)) as [<- | Hjk]; [lia|].
      pose proof (Hmono (j + 2) k ltac:(lia)). lia.
Qed.

(** Requests above 32768 resolve to index 14, the 15th entry of
    [chunk_sizes]. *)
Lemma get_chunk_index_top s :
  32768 < s <= 65536 -> get_chunk_index s = Done 14.
Proof.
  intros Hs. destruct (decide (s = 65536)) as [-> | Hne]; [reflexivity|].
  apply (get_chunk_index_round_up 15 s); [lia|].
  change (2 ^ 15) with 32768. change (2 ^ (15 + 1)) with 65536. lia.
Qed.

Lemma get_chunk_index_below_top s :
  3 <= s <= 32768 ->
  exists i, get_chunk_index s = Done i /\ 0 <= i < CHUNK_CLASSES.
Proof.
  intros Hs.
  destruct (get_chunk_index_smallest_class s ltac:(lia)) as (i & Hi & Hr & _ & _ & Hmin).
  exists i. split; [done|]. unfold CHUNK_CLASSES.
  destruct (decide (i = 14)) as [-> | Hne]; [|lia].
  specialize (Hmin 13 ltac:(lia)). change (4 * 2 ^ 13) with 32768 in Hmin. lia.
Qed.

(** C2: for the sizes 1 and 2 of the range (0, 65536] the resolver returns no
    index at all: neither is rounded up, [size / 4] is 0, and
    [__builtin_ctzll(0)] has no defined result. *)
Theorem get_chunk_index_below_min_undefined :
  get_chunk_index 1 = Undefined /\ get_chunk_index 2 = Undefined.
Proof. split; reflexivity. Qed.

(** ** What one call does *)

Lemma set_free_list_Done st i v st' :
  set_free_list st i v = Done st' ->
  0 <= i < CHUNK_CLASSES /\
  (Z.to_nat i < length (free_list (mem_manager st)))%nat /\
  free_list (mem_manager st') = <[Z.to_nat i := v]> (free_list (mem_manager st)) /\
  preallocated_counts (mem_manager st') = preallocated_counts (mem_manager st) /\
  next st' = next st /\ libc st' = libc st.
Proof.
  unfold set_free_list. intros H. inv_bind H.
  apply array_set_Done in Hx as (Hi & Hl & ->). by injection H as <-.
Qed.

Lemma call_malloc_eq n st p st' :
  call_malloc n st = (p, st') ->
  mem_manager st' = mem_manager st /\ next st' = next st /\
  malloc n (libc st) = (p, libc st').
Proof.
  unfold call_malloc. destruct (malloc n (libc st)) as [q l].
  intros [= <- <-]. done.
Qed.

Lemma malloc_requests n l :
  requests (malloc n l).2 = requests l ++ [n].
Proof. unfold malloc. by destruct (brk l + span n <=? arena_end l). Qed.

Lemma span_gt n : 0 <= n -> n < span n.
Proof. intros Hn. unfold span. pose proof (Z.mul_succ_div_gt n 16). lia. Qed.

Lemma malloc_cases n l p l' :
  malloc n l = (p, l') ->
  arena_end l' = arena_end l /\ requests l' = requests l ++ [n] /\
  ((p = brk l /\ brk l' = brk l + span n /\ brk l' <= arena_end l) \/
   (p = NULL /\ brk l' = brk l)).
Proof.
  unfold malloc. destruct (brk l + span n <=? arena_end l) eqn:E;
    intros [= <- <-]; simpl; repeat split; [left | right]; repeat split; lia.
Qed.

Lemma mm_malloc_rejects size st :
  size = 0 \/ MAX_CHUNK_SIZE < size -> mm_malloc size st = Done (NULL, st).
Proof.
  intros H. unfold mm_malloc.
  replace ((size =? 0) || (MAX_CHUNK_SIZE <? size)) with true; [done|].
  symmetry. apply orb_true_iff. lia.
Qed.

(** Every defined run of [mm_malloc] is a rejection, a pop of the head of the
    list of the class, or one call of [malloc] with the size of the class. *)
Lemma mm_malloc_Done size st p st' :
  mm_malloc size st = Done (p, st') ->
  ((size = 0 \/ MAX_CHUNK_SIZE < size) /\ p = NULL /\ st' = st) \/
  (0 < size <= MAX_CHUNK_SIZE \/ size < 0) /\
  exists index head,
    get_chunk_index size = Done index /\ get_free_list st index = Done head /\
    ((head <> NULL /\ p = head /\
      exists nxt, next st !! head = Some nxt /\ set_free_list st index nxt = Done st') \/
     (head = NULL /\ exists sz, chunk_size index = Done sz /\
                                call_malloc sz st = (p, st'))).
Proof.
  unfold mm_malloc. intros H.
  destruct ((size =? 0) || (MAX_CHUNK_SIZE <? size)) eqn:G.
  - left. injection H as <- <-. apply orb_true_iff in G. split; [lia|done].
  - right. apply orb_false_iff in G. split; [lia|].
    inv_bind H. rename x into index. inv_bind H. rename x into head.
    exists index, head. do 2 (split; [done|]).
    destruct (head =? NULL) eqn:E; simpl in H.
    + right. split; [lia|]. inv_bind H. exists x. split; [done|].
      by injection H as ->.
    + left. split; [lia|]. unfold load_next in H. inv_bind H.
      destruct (next st !! head) as [nxt|] eqn:En; [|discriminate].
      injection Hx1 as <-. inv_bind H. injection H as <- <-.
      split; [done|]. by exists nxt.
Qed.

Lemma mm_free_guard ptr size st :
  ptr = NULL \/ size = 0 \/ MAX_CHUNK_SIZE < size -> mm_free ptr size st = Done st.
Proof.
  intros H. unfold mm_free.
  replace ((ptr =? NULL) || (size =? 0) || (MAX_CHUNK_SIZE <? size)) with true; [done|].
  symmetry. rewrite !orb_true_iff. lia.
Qed.

(** Every defined run of [mm_free] is a rejection or a push onto the list of
    the class. *)
Lemma mm_free_Done ptr size st st' :
  mm_free ptr size st = Done st' ->
  ((ptr = NULL \/ size = 0 \/ MAX_CHUNK_SIZE < size) /\ st' = st) \/
  ptr <> NULL /\ (0 < size <= MAX_CHUNK_SIZE \/ size < 0) /\
  exists index head,
    get_chunk_index size = Done index /\ get_free_list st index = Done head /\
    set_free_list (store_next st ptr head) index ptr = Done st'.
Proof.
  unfold mm_free. intros H.
  destruct ((ptr =? NULL) || (size =? 0) || (MAX_CHUNK_SIZE <? size)) eqn:G.
  - left. injection H as <-. rewrite !orb_true_iff in G. split; [lia|done].
  - right. rewrite !orb_false_iff in G. do 2 (split; [lia|]).
    inv_bind H. rename x into index. inv_bind H. rename x into head.
    by exists index, head.
Qed.

(** Neither call writes a counter when it runs to completion. *)
Lemma mm_malloc_preserves_counts size st p st' :
  mm_malloc size st = Done (p, st') ->
  preallocated_counts (mem_manager st') = preallocated_counts (mem_manager st).
Proof.
  intros H. apply mm_malloc_Done in H as [(_ & _ & ->) | (_ & index & head & _ & _ & H)];
    [done|].
  destruct H as [(_ & _ & nxt & _ & H) | (_ & sz & _ & H)].
  - by apply set_free_list_Done in H as (_ & _ & _ & -> & _).
  - by apply call_malloc_eq in H as (-> & _).
Qed.

Lemma mm_free_preserves_counts ptr size st st' :
  mm_free ptr size st = Done st' ->
  preallocated_counts (mem_manager st') = preallocated_counts (mem_manager st).
Proof.
  intros H. apply mm_free_Done in H as [(_ & ->) | (_ & _ & index & head & _ & _ & H)];
    [done|].
  by apply set_free_list_Done in H as (_ & _ & _ & -> & _).
Qed.

(** ** The boundary of the accepted sizes *)

(** C1: [mm_malloc(0)] and [mm_malloc(65537)] return [NULL] and leave the
    state as it was, but [mm_malloc(65536)] does not return a block: the
    request resolves to index 14 and [mem_manager.free_list] has only
    [CHUNK_CLASSES] = 14 entries, so the read of [free_list[14]] is out of
    bounds in every state. *)
Theorem mm_malloc_boundary st :
  mm_malloc 0 st = Done (NULL, st) /\
  mm_malloc 65537 st = Done (NULL, st) /\
  mm_malloc 65536 st = Undefined.
Proof.
  split; [reflexivity|]. split; [reflexivity|].
  unfold mm_malloc. change (get_chunk_index 65536) with (Done (A:=Z) 14).
  cbn [orb Z.eqb Z.ltb Z.compare Pos.compare Pos.compare_cont MAX_CHUNK_SIZE bind].
  unfold get_free_list. rewrite array_get_out_of_bounds; [done|].
  unfold CHUNK_CLASSES. lia.
Qed.

(** C6: [mm_free] with a size of the top class does not leave the counters
    alone: it resolves to index 14 and accesses [free_list[14]], one past the
    end of the array that [preallocated_counts] follows in [MemoryManager];
    the call has no defined result. *)
Theorem mm_free_top_class_out_of_bounds ptr st :
  ptr <> NULL -> mm_free ptr 65536 st = Undefined.
Proof.
  intros Hp. unfold mm_free.
  replace (ptr =? NULL) with false by lia.
  change (get_chunk_index 65536) with (Done (A:=Z) 14).
  cbn [orb Z.eqb Z.ltb Z.compare Pos.compare Pos.compare_cont MAX_CHUNK_SIZE bind].
  unfold get_free_list. rewrite array_get_out_of_bounds; [done|].
  unfold CHUNK_CLASSES. lia.
Qed.

Lemma mm_free_top_class_out_of_bounds_witness :
  mm_free 4096 65536 (initial_state {| brk := 4096; arena_end := 65536; requests := [] |})
  = Undefined.
Proof. apply mm_free_top_class_out_of_bounds. unfold NULL. lia. Defined.

(** C7: [mm_free] with a null pointer, a zero size or a size above 65536
    returns normally and the whole state (free lists, counters, block links
    and libc) is the one it started from. *)
Theorem mm_free_rejects ptr size st :
  ptr = NULL \/ size = 0 \/ 65536 < size -> mm_free ptr size st = Done st.
Proof. apply mm_free_guard. Qed.

Lemma mm_free_rejects_witness :
  let st := initial_state {| brk := 4096; arena_end := 65536; requests := [] |} in
  mm_free 0 64 st = Done st /\ mm_free 4096 0 st = Done st /\
  mm_free 4096 65537 st = Done st.
Proof.
  intros st. split; [|split].
  - apply mm_free_rejects. left. reflexivity.
  - apply mm_free_rejects. right. left. reflexivity.
  - apply mm_free_rejects. right. right. lia.
Defined.

(** C8: for the sizes 1 and 2 the fallback is never reached, whatever the
    free lists hold: the resolver has no defined result, and no request of 4
    bytes is made to [malloc]. *)
Theorem mm_malloc_below_min_undefined st :
  mm_malloc 1 st = Undefined /\ mm_malloc 2 st = Undefined.
Proof. split; reflexivity. Qed.

(** On the sizes from 3 to 32768 the fallback is as described: with the list
    of the class empty, the call is exactly one [malloc] of the class size. *)
Lemma mm_malloc_fallback s st :
  3 <= s <= 32768 ->
  (forall i, get_chunk_index s = Done i -> get_free_list st i = Done NULL) ->
  exists i, get_chunk_index s = Done i /\ s <= 4 * 2 ^ i /\
    mm_malloc s st = Done (call_malloc (4 * 2 ^ i) st) /\
    (call_malloc (4 * 2 ^ i) st).1 = (malloc (4 * 2 ^ i) (libc st)).1 /\
    requests (libc (call_malloc (4 * 2 ^ i) st).2) = requests (libc st) ++ [4 * 2 ^ i] /\
    mem_manager (call_malloc (4 * 2 ^ i) st).2 = mem_manager st.
Proof.
  intros Hs Hempty.
  destruct (get_chunk_index_smallest_class s ltac:(lia)) as (i & Hi & Hr & Hsz & Hle & _).
  exists i. do 2 (split; [done|]).
  unfold mm_malloc. replace ((s =? 0) || (MAX_CHUNK_SIZE <? s)) with false.
  2:{ symmetry. apply orb_false_iff. unfold MAX_CHUNK_SIZE. lia. }
  rewrite Hi. simpl. rewrite (Hempty i Hi). simpl. rewrite Hsz. simpl.
  split; [done|]. unfold call_malloc.
  pose proof (malloc_requests (4 * 2 ^ i) (libc st)) as Hreq.
  destruct (malloc (4 * 2 ^ i) (libc st)) as [p l]. simpl in *. done.
Qed.

(** ** LIFO reuse *)

Lemma step_Done o st ev st' :
  step o st = Done (ev, st') ->
  (exists size p, o = Allocate size /\ ev = Allocated size p /\
                  mm_malloc size st = Done (p, st')) \/
  (exists ptr size, o = Release ptr size /\ ev = Released ptr size /\
                    mm_free ptr size st = Done st').
Proof.
  destruct o as [size | ptr size]; simpl; intros H; inv_bind H.
  - left. destruct x as [p st1]. injection H as <- <-. by exists size, p.
  - right. injection H as <- <-. by exists ptr, size.
Qed.

Lemma run_cons_Done o ops st evs st' :
  run (o :: ops) st = Done (evs, st') ->
  exists ev st1 evs', step o st = Done (ev, st1) /\
                      run ops st1 = Done (evs', st') /\ evs = ev :: evs'.
Proof.
  simpl. intros H. inv_bind H. destruct x as [ev st1]. inv_bind H.
  destruct x as [evs' st2]. injection H as <- <-. by exists ev, st1, evs'.
Qed.

(** A call of another class leaves the head of the list of class [c] where it
    is, and every link that was written stays written. *)
Lemma step_other_class c o st ev st' :
  0 <= c -> other_class c o -> step o st = Done (ev, st') ->
  free_list (mem_manager st') !! Z.to_nat c = free_list (mem_manager st) !! Z.to_nat c /\
  (forall p, is_Some (next st !! p) -> is_Some (next st' !! p)).
Proof.
  intros Hc Hother H. unfold other_class in Hother.
  apply step_Done in H as [(size & p & -> & -> & H) | (ptr & size & -> & -> & H)];
    simpl in Hother.
  - apply mm_malloc_Done in H as [(_ & _ & ->) | (_ & index & head & Hi & _ & H)];
      [done|].
    destruct H as [(_ & _ & nxt & _ & H) | (_ & sz & _ & H)].
    + apply set_free_list_Done in H as (Hr & _ & -> & _ & -> & _).
      split; [|done]. apply list_lookup_insert_ne.
      intros E. apply Hother. rewrite Hi. f_equal. lia.
    + by apply call_malloc_eq in H as (-> & -> & _).
  - apply mm_free_Done in H as [(_ & ->) | (_ & _ & index & head & Hi & _ & H)];
      [done|].
    apply set_free_list_Done in H as (Hr & _ & -> & _ & -> & _). simpl. split.
    + apply list_lookup_insert_ne. intros E. apply Hother. rewrite Hi. f_equal. lia.
    + intros p Hp. destruct (decide (ptr = p)) as [-> | Hne].
      * rewrite lookup_insert_eq. eauto.
      * by rewrite lookup_insert_ne.
Qed.

Lemma run_other_class c ops : forall st evs st',
  0 <= c -> Forall (other_class c) ops -> run ops st = Done (evs, st') ->
  free_list (mem_manager st') !! Z.to_nat c = free_list (mem_manager st) !! Z.to_nat c /\
  (forall p, is_Some (next st !! p) -> is_Some (next st' !! p)).
Proof.
  induction ops as [| o ops IH]; intros st evs st' Hc Hall Hrun.
  - simpl in Hrun. by injection Hrun as <- <-.
  - apply run_cons_Done in Hrun as (ev & st1 & evs' & Hstep & Hrun & ->).
    inversion Hall as [| ? ? Ho Hrest]; subst.
    destruct (step_other_class c o st ev st1 Hc Ho Hstep) as [Hfl Hnx].
    destruct (IH st1 evs' st' Hc Hrest Hrun) as [Hfl' Hnx'].
    split; [congruence | auto].
Qed.

(** C5: when [mm_malloc(64)] returns a block [b], calls of other classes
    follow, [mm_free(b, 64)] releases it and calls of other classes follow
    again, the next [mm_malloc(64)] returns [b] itself. *)
Theorem mm_malloc_reuses_released_block st0 b st1 ops1 evs1 st2 st3 ops2 evs2 st4 :
  mm_malloc 64 st0 = Done (b, st1) -> b <> NULL ->
  Forall (other_class 4) ops1 -> run ops1 st1 = Done (evs1, st2) ->
  mm_free b 64 st2 = Done st3 ->
  Forall (other_class 4) ops2 -> run ops2 st3 = Done (evs2, st4) ->
  exists st5, mm_malloc 64 st4 = Done (b, st5).
Proof.
  intros _ Hb _ _ Hfree Hops2 Hrun2.
  apply mm_free_Done in Hfree as [([? | [? | ?]] & _) | (_ & _ & index & head & Hi & _ & H)];
    [done | done | unfold MAX_CHUNK_SIZE in *; lia |].
  change (get_chunk_index 64) with (Done (A:=Z) 4) in Hi. injection Hi as <-.
  apply set_free_list_Done in H as (_ & Hlen & Hfl & _ & Hnx & _). simpl in *.
  destruct (run_other_class 4 ops2 st3 evs2 st4 ltac:(lia) Hops2 Hrun2) as [Hhead Hlink].
  assert (free_list (mem_manager st4) !! Z.to_nat 4 = Some b) as Hhead4.
  { rewrite Hhead, Hfl. by apply list_lookup_insert_eq. }
  destruct (Hlink b) as [nxt Hnxt].
  { rewrite Hnx. rewrite lookup_insert_eq. eauto. }
  apply lookup_lt_Some in Hhead4 as Hlen4.
  unfold mm_malloc. change (get_chunk_index 64) with (Done (A:=Z) 4).
  cbn [orb Z.eqb Z.ltb Z.compare Pos.compare Pos.compare_cont MAX_CHUNK_SIZE bind].
  unfold get_free_list. rewrite (array_get_lookup _ _ 4 b); [|unfold CHUNK_CLASSES; lia|done].
  cbn [bind]. replace (b =? NULL) with false by lia. cbn [negb].
  unfold load_next. rewrite Hnxt. cbn [bind].
  unfold set_free_list. rewrite array_set_in_range; [|unfold CHUNK_CLASSES; lia|done].
  cbn [bind]. eauto.
Qed.

(** ** The seeder *)

Lemma wf_state_lookups st i :
  wf_state st -> 0 <= i < CHUNK_CLASSES ->
  exists head count,
    free_list (mem_manager st) !! Z.to_nat i = Some head /\
    preallocated_counts (mem_manager st) !! Z.to_nat i = Some count.
Proof.
  intros [Hf Hc] Hi.
  destruct (lookup_lt_is_Some_2 (free_list (mem_manager st)) (Z.to_nat i)) as [head Hh];
    [lia|].
  destruct (lookup_lt_is_Some_2 (preallocated_counts (mem_manager st)) (Z.to_nat i))
    as [count Hcount]; [lia|].
  eauto.
Qed.

(** A completed iteration of the loop body is one seeding step. *)
Lemma seed_block_Done i st st' :
  seed_block i (class_bytes i) st = Done st' ->
  0 <= i < CHUNK_CLASSES /\ seeds_one i st st'.
Proof.
  unfold seed_block. destruct (call_malloc (class_bytes i) st) as [block st1] eqn:Hm.
  apply call_malloc_eq in Hm as (Hmm & Hnx & Hmalloc).
  destruct (block =? NULL) eqn:Hnull; [discriminate|].
  intros H. inv_bind H. rename x into head.
  apply array_get_Done in Hx as [Hi Hhead]. rewrite Hmm in Hhead.
  inv_bind H. rename x into st3.
  apply set_free_list_Done in Hx as (_ & _ & Hfl & Hpc & Hnx3 & Hl3). simpl in *.
  unfold incr_preallocated in H. inv_bind H. rename x into count.
  apply array_get_Done in Hx as [_ Hcount]. inv_bind H.
  apply array_set_Done in Hx as (_ & _ & ->). injection H as <-. simpl.
  split; [done|]. exists block, head, count. rewrite Hl3. simpl.
  rewrite Hpc, Hmm in Hcount. rewrite Hfl, Hpc, Hnx3, Hnx, Hmm.
  repeat split; try done. lia.
Qed.

(** The loop body either completes or stops the process on a failed
    [malloc]. *)
Lemma seed_block_total i sz st :
  wf_state st -> 0 <= i < CHUNK_CLASSES ->
  seed_block i sz st = Exited 1 /\
    (brk (libc st) = NULL \/ arena_end (libc st) < brk (libc st) + span sz) \/
  exists st', seed_block i sz st = Done st' /\ wf_state st' /\
              arena_end (libc st') = arena_end (libc st) /\
              brk (libc st') = brk (libc st) + span sz /\
              brk (libc st') <= arena_end (libc st).
Proof.
  intros Hwf Hi. destruct (wf_state_lookups st i Hwf Hi) as (head & count & Hh & Hc).
  destruct Hwf as [Hlf Hlc].
  unfold seed_block. destruct (call_malloc sz st) as [block st1] eqn:Hm.
  apply call_malloc_eq in Hm as (Hmm & Hnx & Hmalloc).
  destruct (block =? NULL) eqn:Hnull.
  { left. split; [done|]. unfold malloc in Hmalloc.
    destruct (brk (libc st) + span sz <=? arena_end (libc st)) eqn:E;
      injection Hmalloc as Hb _; lia. }
  right.
  apply malloc_cases in Hmalloc as (Hend & _ & [(-> & Hbrk & Hle) | (-> & _)]);
    [|discriminate].
  unfold get_free_list. rewrite Hmm, (array_get_lookup _ _ i head) by done. cbn [bind].
  unfold set_free_list. cbn [store_next mem_manager].
  rewrite Hmm, array_set_in_range by (done || lia). cbn [bind].
  unfold incr_preallocated. cbn [mem_manager preallocated_counts free_list].
  rewrite (array_get_lookup _ _ i count) by done. cbn [bind].
  rewrite array_set_in_range by (done || lia). cbn [bind].
  eexists. split; [done|]. unfold wf_state. simpl.
  rewrite !length_insert. repeat split; try done; lia.
Qed.

Lemma seeds_one_wf i st st' :
  seeds_one i st st' -> wf_state st -> wf_state st'.
Proof.
  intros (b & h & c & _ & _ & _ & _ & Hf & _ & Hc) [H1 H2].
  unfold wf_state. rewrite Hf, Hc, !length_insert. done.
Qed.

Lemma round_robin_from_S k n :
  round_robin_from k (S n) = Z.of_nat k mod CHUNK_CLASSES :: round_robin_from (S k) n.
Proof. reflexivity. Qed.

Lemma next_class k :
  (Z.of_nat k mod CHUNK_CLASSES + 1) mod CHUNK_CLASSES = Z.of_nat (S k) mod CHUNK_CLASSES.
Proof.
  rewrite Zplus_mod_idemp_l. f_equal. lia.
Qed.

Lemma class_bytes_bounds i :
  0 <= i <= 14 -> 4 <= class_bytes i <= 65536.
Proof.
  intros Hi. unfold class_bytes, MIN_CHUNK_SIZE.
  assert (2 ^ 0 <= 2 ^ i) by (apply Z.pow_le_mono_r; lia).
  assert (2 ^ i <= 2 ^ 14) by (apply Z.pow_le_mono_r; lia).
  change (2 ^ 0) with 1 in *. change (2 ^ 14) with 16384 in *. lia.
Qed.

Lemma chunk_size_class_bytes i sz :
  chunk_size i = Done sz -> 0 <= i <= 14 /\ sz = class_bytes i.
Proof. apply chunk_size_Done. Qed.

Lemma sum_bytes_cons i classes :
  sum_bytes (i :: classes) = class_bytes i + sum_bytes classes.
Proof. reflexivity. Qed.

Lemma wrap_small x : 0 <= x < WORD -> wrap x = x.
Proof. intros H. unfold wrap. by apply Z.mod_small. Qed.

Lemma wrap_range x : 0 <= wrap x < WORD.
Proof. unfold wrap. apply Z.mod_pos_bound. reflexivity. Qed.

(** What a completed run of the loop has done, started at iteration number
    [k] with [a] bytes counted so far.  [base] is where the arena began:
    the blocks handed out so far lie between [base] and [brk], so the byte
    count never reaches the width of [size_t]. *)
Lemma preallocate_loop_Done fuel : forall B a k st base r st',
  0 < base -> arena_end (libc st) <= WORD ->
  0 <= a -> base + a <= brk (libc st) ->
  a <= wrap (B * 2) ->
  preallocate_loop fuel B a (Z.of_nat k mod CHUNK_CLASSES) st = Done (r, st') ->
  exists n,
    seeded (round_robin_from k n) st st' /\
    r = a + sum_bytes (round_robin_from k n) /\
    r <= wrap (B * 2) /\
    wrap (B * 2) < r + class_bytes (Z.of_nat (k + n) mod CHUNK_CLASSES).
Proof.
  induction fuel as [| fuel IH]; intros B a k st base r st' Hbase Hend Ha Hbrk Hlim H;
    [discriminate|].
  simpl in H. inv_bind H. rename x into sz.
  apply chunk_size_class_bytes in Hx as [Hi ->].
  set (i := Z.of_nat k mod CHUNK_CLASSES) in *.
  pose proof (class_bytes_bounds i Hi) as Hsz.
  destruct (wrap (a + class_bytes i) <=? wrap (B * 2)) eqn:Hcond.
  - inv_bind H. rename x into st1.
    apply seed_block_Done in Hx as [Hir Hone].
    assert (brk (libc st1) = brk (libc st) + span (class_bytes i) /\
            brk (libc st1) <= arena_end (libc st) /\
            arena_end (libc st1) = arena_end (libc st)) as (Hb1 & Hle1 & He1).
    { destruct Hone as (b & h & c & Hm & Hb & _).
      apply malloc_cases in Hm as (He & _ & [(_ & ? & ?) | (-> & _)]); done. }
    pose proof (span_gt (class_bytes i) ltac:(lia)) as Hspan.
    assert (wrap (a + class_bytes i) = a + class_bytes i) as Hw
      by (apply wrap_small; lia).
    rewrite Hw in H, Hcond.
    subst i. rewrite next_class in H.
    apply (IH B _ (S k) st1 base r st') in H as (n & Hseeded & Hr & Hle & Hstop);
      try lia.
    exists (S n). rewrite round_robin_from_S, sum_bytes_cons. cbn [seeded].
    split; [by exists st1|]. split; [lia|]. split; [done|].
    replace (k + S n)%nat with (S k + n)%nat by lia. done.
  - injection H as <- <-. exists 0%nat. simpl.
    split; [done|]. split; [lia|]. split; [done|].
    replace (k + 0)%nat with k by lia. subst i.
    pose proof (wrap_range (B * 2)).
    destruct (decide (a + class_bytes (Z.of_nat k mod CHUNK_CLASSES) < WORD));
      [rewrite wrap_small in Hcond|]; lia.
Qed.

Lemma preallocate_loop_step fuel B a i st sz st1 :
  chunk_size i = Done sz ->
  (wrap (a + sz) <=? wrap (B * 2)) = true ->
  seed_block i sz st = Done st1 ->
  preallocate_loop (S fuel) B a i st =
  preallocate_loop fuel B (wrap (a + sz)) ((i + 1) mod CHUNK_CLASSES) st1.
Proof. intros Hsz Hc Hb. simpl. rewrite Hsz. cbn [bind]. by rewrite Hc, Hb. Qed.

Lemma preallocate_loop_stop fuel B a i st sz :
  chunk_size i = Done sz ->
  (wrap (a + sz) <=? wrap (B * 2)) = false ->
  preallocate_loop (S fuel) B a i st = Done (a, st).
Proof. intros Hsz Hc. simpl. rewrite Hsz. cbn [bind]. by rewrite Hc. Qed.

(** The loop ends, by its condition or by [exit(1)], as soon as the fuel
    exceeds what is left of the arena. *)
Lemma preallocate_loop_terminates fuel : forall B a i st,
  wf_state st -> 0 <= i < CHUNK_CLASSES ->
  Z.max 0 (arena_end (libc st) - brk (libc st)) < Z.of_nat fuel ->
  preallocate_loop fuel B a i st = Exited 1 \/
  exists r st', preallocate_loop fuel B a i st = Done (r, st').
Proof.
  induction fuel as [| fuel IH]; intros B a i st Hwf Hi Hfuel; [lia|].
  pose proof (chunk_size_in_range i ltac:(unfold CHUNK_CLASSES in Hi; lia)) as Hsz.
  destruct (wrap (a + 4 * 2 ^ i) <=? wrap (B * 2)) eqn:Hcond.
  - destruct (seed_block_total i (4 * 2 ^ i) st Hwf Hi)
      as [[Hex _] | (st1 & Hdone & Hwf1 & He1 & Hb1 & Hle1)].
    + left. simpl. rewrite Hsz. cbn [bind]. by rewrite Hcond, Hex.
    + rewrite (preallocate_loop_step _ _ _ _ _ _ st1 Hsz Hcond Hdone).
      apply IH; [done | by apply Z.mod_pos_bound |].
      pose proof (class_bytes_bounds i ltac:(unfold CHUNK_CLASSES in Hi; lia)) as Hcb.
      unfold class_bytes, MIN_CHUNK_SIZE in Hcb.
      pose proof (span_gt (4 * 2 ^ i) ltac:(lia)). lia.
  - right. rewrite (preallocate_loop_stop _ _ _ _ _ _ Hsz Hcond). eauto.
Qed.

Lemma seeded_requests classes : forall st st',
  seeded classes st st' ->
  requests (libc st') = requests (libc st) ++ map class_bytes classes.
Proof.
  induction classes as [| i rest IH]; intros st st' H; simpl in H.
  - subst. by rewrite app_nil_r.
  - destruct H as (st1 & (b & h & c & Hm & _) & Hrest).
    apply malloc_cases in Hm as (_ & Hreq & _).
    rewrite (IH _ _ Hrest), Hreq. simpl. by rewrite <- app_assoc.
Qed.

Lemma seeded_wf classes : forall st st',
  seeded classes st st' -> wf_state st -> wf_state st'.
Proof.
  induction classes as [| i rest IH]; intros st st' H Hwf; simpl in H.
  - by subst.
  - destruct H as (st1 & Hone & Hrest). eauto using seeds_one_wf.
Qed.

Lemma span_le_4 sz : 4 <= sz -> span sz <= 4 * sz.
Proof.
  intros H. unfold span. destruct (decide (sz < 16)) as [Hlt | Hge].
  - rewrite Z.div_small by lia. lia.
  - pose proof (Z.mul_div_le sz 16 ltac:(lia)). lia.
Qed.

Lemma malloc_fails_when l sz :
  brk l = NULL \/ arena_end l < brk l + span sz -> (malloc sz l).1 = NULL.
Proof.
  intros H. unfold malloc. destruct (brk l + span sz <=? arena_end l) eqn:E; simpl; [|done].
  destruct H as [-> | ?]; [done | lia].
Qed.

(** With fuel above what is left of the arena, the loop runs some number [n]
    of seeding iterations in round-robin order and then ends in one of two
    ways: its condition fails and it returns, or the condition holds,
    [malloc] answers [NULL] for the block of the next class, and the process
    exits with code 1. *)
Lemma preallocate_loop_run fuel : forall B a k st base,
  wf_state st -> 0 < base -> arena_end (libc st) <= WORD ->
  0 <= a -> base + a <= brk (libc st) -> a <= wrap (B * 2) ->
  Z.max 0 (arena_end (libc st) - brk (libc st)) < Z.of_nat fuel ->
  exists n st_n,
    seeded (round_robin_from k n) st st_n /\
    a + sum_bytes (round_robin_from k n) <= wrap (B * 2) /\
    ((preallocate_loop fuel B a (Z.of_nat k mod CHUNK_CLASSES) st =
        Done (a + sum_bytes (round_robin_from k n), st_n) /\
      wrap (B * 2) < a + sum_bytes (round_robin_from k n)
                     + class_bytes (Z.of_nat (k + n) mod CHUNK_CLASSES)) \/
     (preallocate_loop fuel B a (Z.of_nat k mod CHUNK_CLASSES) st = Exited 1 /\
      (malloc (class_bytes (Z.of_nat (k + n) mod CHUNK_CLASSES)) (libc st_n)).1 = NULL)).
Proof.
  induction fuel as [| fuel IH]; intros B a k st base Hwf Hbase Hend Ha Hbrk Hlim Hfuel;
    [lia|].
  assert (0 <= Z.of_nat k mod CHUNK_CLASSES < CHUNK_CLASSES) as Hi
    by (by apply Z.mod_pos_bound).
  pose proof (chunk_size_in_range (Z.of_nat k mod CHUNK_CLASSES)
                ltac:(unfold CHUNK_CLASSES in *; lia)) as Hsz.
  change (4 * 2 ^ (Z.of_nat k mod CHUNK_CLASSES))
    with (class_bytes (Z.of_nat k mod CHUNK_CLASSES)) in Hsz.
  pose proof (class_bytes_bounds (Z.of_nat k mod CHUNK_CLASSES)
                ltac:(unfold CHUNK_CLASSES in *; lia)) as Hcb.
  destruct (wrap (a + class_bytes (Z.of_nat k mod CHUNK_CLASSES)) <=? wrap (B * 2))
    eqn:Hcond.
  - destruct (seed_block_total _ (class_bytes (Z.of_nat k mod CHUNK_CLASSES)) st Hwf Hi)
      as [[Hex Hwhy] | (st1 & Hdone & Hwf1 & He1 & Hb1 & Hle1)].
    + exists 0%nat, st. cbn [round_robin_from seq map seeded sum_bytes foldr].
      split; [done|]. split; [lia|]. right.
      replace (k + 0)%nat with k by lia. split; [|by apply malloc_fails_when].
      simpl. rewrite Hsz. cbn [bind]. by rewrite Hcond, Hex.
    + rewrite (preallocate_loop_step _ _ _ _ _ _ st1 Hsz Hcond Hdone).
      apply seed_block_Done in Hdone as [_ Hone].
      pose proof (span_gt (class_bytes (Z.of_nat k mod CHUNK_CLASSES)) ltac:(lia)) as Hspan.
      assert (wrap (a + class_bytes (Z.of_nat k mod CHUNK_CLASSES)) =
              a + class_bytes (Z.of_nat k mod CHUNK_CLASSES)) as Hw
        by (apply wrap_small; lia).
      rewrite Hw in *. rewrite next_class.
      destruct (IH B (a + class_bytes (Z.of_nat k mod CHUNK_CLASSES)) (S k) st1 base)
        as (n & st_n & Hseeded & Hle & Hend'); try done; try lia.
      exists (S n), st_n. rewrite round_robin_from_S, sum_bytes_cons. cbn [seeded].
      replace (k + S n)%nat with (S k + n)%nat by lia.
      rewrite Z.add_assoc.
      split; [by exists st1|]. split; [lia|]. done.
  - exists 0%nat, st. cbn [round_robin_from seq map seeded sum_bytes foldr].
    rewrite Z.add_0_r. replace (k + 0)%nat with k by lia.
    split; [done|]. split; [done|]. left.
    rewrite (preallocate_loop_stop _ _ _ _ _ _ Hsz Hcond). split; [done|].
    pose proof (wrap_range (B * 2)).
    destruct (decide (a + class_bytes (Z.of_nat k mod CHUNK_CLASSES) < WORD));
      [rewrite wrap_small in Hcond|]; lia.
Qed.

(** With room in the arena for four times the limit, [malloc] never fails
    and the loop returns. *)
Lemma preallocate_loop_room fuel : forall B a i st,
  wf_state st -> 0 <= i < CHUNK_CLASSES -> 0 < brk (libc st) ->
  0 <= a <= wrap (B * 2) -> wrap (B * 2) + 65536 < WORD ->
  brk (libc st) + 4 * (wrap (B * 2) - a) <= arena_end (libc st) ->
  Z.max 0 (arena_end (libc st) - brk (libc st)) < Z.of_nat fuel ->
  exists r st', preallocate_loop fuel B a i st = Done (r, st').
Proof.
  induction fuel as [| fuel IH]; intros B a i st Hwf Hi Hbrk Ha Hlim Hroom Hfuel; [lia|].
  pose proof (chunk_size_in_range i ltac:(unfold CHUNK_CLASSES in Hi; lia)) as Hsz.
  change (4 * 2 ^ i) with (class_bytes i) in Hsz.
  pose proof (class_bytes_bounds i ltac:(unfold CHUNK_CLASSES in *; lia)) as Hcb.
  destruct (wrap (a + class_bytes i) <=? wrap (B * 2)) eqn:Hcond.
  - rewrite wrap_small in Hcond by lia.
    pose proof (span_le_4 (class_bytes i) ltac:(lia)) as Hspan4.
    pose proof (span_gt (class_bytes i) ltac:(lia)) as Hspan.
    destruct (seed_block_total i (class_bytes i) st Hwf Hi)
      as [[_ [Hnull | Hfull]] | (st1 & Hdone & Hwf1 & He1 & Hb1 & Hle1)];
      [unfold NULL in Hnull; lia | lia |].
    rewrite (preallocate_loop_step _ _ _ _ _ _ st1 Hsz) by (done || (rewrite wrap_small; lia)).
    rewrite wrap_small by lia.
    apply IH; try done; try lia. by apply Z.mod_pos_bound.
  - rewrite (preallocate_loop_stop _ _ _ _ _ _ Hsz Hcond). eauto.
Qed.

(** C4: for every budget [B], [preallocate_memory] runs some number [n] of
    iterations that visit the classes [0, 1, ..., CHUNK_CLASSES - 1, 0, ...]
    in this order, each iteration taking exactly one block of the size of its
    class from [malloc], pushing it onto the free list of that class and
    incrementing the counter of that class, with at most [2 * B] bytes seeded
    in all.  It then ends in one of two ways: it returns, because the block
    of the next class in the order would not fit under the limit the code
    computes; or [malloc] has answered [NULL] for that block and the process
    exits with code 1.  When the arena has room for four times the limit it
    returns.  And every run that returns, with whatever fuel, is of this
    form. *)
Theorem preallocate_memory_round_robin B st :
  0 <= B < WORD -> wf_state st -> libc_ok (libc st) ->
  (exists fuel n st_n,
     seeded (round_robin n) st st_n /\
     sum_bytes (round_robin n) <= 2 * B /\
     ((preallocate_memory fuel B st = Done (sum_bytes (round_robin n), st_n) /\
       wrap (B * 2) < sum_bytes (round_robin n)
                      + class_bytes (Z.of_nat n mod CHUNK_CLASSES)) \/
      (preallocate_memory fuel B st = Exited 1 /\
       (malloc (class_bytes (Z.of_nat n mod CHUNK_CLASSES)) (libc st_n)).1 = NULL))) /\
  (brk (libc st) + 4 * wrap (B * 2) <= arena_end (libc st) ->
   exists fuel total st', preallocate_memory fuel B st = Done (total, st')) /\
  (forall fuel total st',
     preallocate_memory fuel B st = Done (total, st') ->
     exists n,
       seeded (round_robin n) st st' /\
       total = sum_bytes (round_robin n) /\
       total <= 2 * B /\
       wrap (B * 2) < total + class_bytes (Z.of_nat n mod CHUNK_CLASSES)).
Proof.
  intros HB Hwf [Hbrk Hend].
  pose proof (wrap_range (B * 2)) as Hw.
  assert (wrap (B * 2) <= 2 * B) as Hwle.
  { assert (wrap (B * 2) <= B * 2); [|lia].
    unfold wrap. apply Z.mod_le; [lia | reflexivity]. }
  set (fuel0 := S (Z.to_nat (Z.max 0 (arena_end (libc st) - brk (libc st))))).
  split; [|split].
  - destruct (preallocate_loop_run fuel0 B 0 0%nat st (brk (libc st)))
      as (n & st_n & Hseeded & Hle & Hend'); try done; try (unfold fuel0; lia).
    exists fuel0, n, st_n. unfold preallocate_memory, round_robin.
    rewrite !Z.add_0_l in *. split; [done|]. split; [lia|]. exact Hend'.
  - intros Hroom. exists fuel0. unfold preallocate_memory.
    apply preallocate_loop_room; try done; try (unfold fuel0, CHUNK_CLASSES; lia).
    unfold WORD in *. lia.
  - intros fuel total st' Hdone. unfold preallocate_memory in Hdone.
    change (preallocate_loop fuel B 0 0 st)
      with (preallocate_loop fuel B 0 (Z.of_nat 0 mod CHUNK_CLASSES) st) in Hdone.
    apply (preallocate_loop_Done _ B 0 0%nat st (brk (libc st)) total st') in Hdone
      as (n & Hseeded & Hr & Hle & Hstop); try done; try lia.
    exists n. unfold round_robin. split; [done|]. split; [lia|]. split; [lia | done].
Qed.

Lemma preallocate_memory_round_robin_witness :
  (exists fuel total st', preallocate_memory fuel 40 demo_state = Done (total, st')) /\
  (exists n,
     seeded (round_robin n) demo_state demo_seeded /\
     60 = sum_bytes (round_robin n) /\
     60 <= 2 * 40 /\
     wrap (40 * 2) < 60 + class_bytes (Z.of_nat n mod CHUNK_CLASSES)).
Proof.
  destruct (preallocate_memory_round_robin 40 demo_state) as (_ & Hroom & Hdone).
  - unfold WORD. lia.
  - split; reflexivity.
  - split; simpl; unfold WORD; lia.
  - split.
    + apply Hroom. vm_compute. discriminate.
    + apply (Hdone 5%nat 60 demo_seeded). vm_compute. reflexivity.
Defined.

(** ** The scenario with budget 40 *)

(** C3, as stated, fails: on the initial state [preallocate_memory(40)] asks
    [malloc] for 4, 8, 16 and 32 bytes and returns with 60 bytes seeded; no
    fifth block, of 4 bytes, follows the 32-byte one. *)
Lemma seed_40_has_no_second_round :
  exists st',
    preallocate_memory 5 40 demo_state = Done (60, st') /\
    requests (libc st') = [4; 8; 16; 32] /\
    ~ (exists rest, requests (libc st') = [4; 8; 16; 32; 4] ++ rest).
Proof.
  eexists. split; [vm_compute; reflexivity|].
  split; [reflexivity|]. intros [rest H]. discriminate H.
Qed.

Ltac spans :=
  change (span 4) with 16 in *; change (span 8) with 16 in *;
  change (span 16) with 32 in *; change (span 32) with 48 in *;
  unfold NULL in *.

(** C3, amended: with budget 40, in every state whose arena has room for the
    four blocks, [preallocate_memory] seeds exactly one block of 4, one of 8,
    one of 16 and one of 32 bytes, in this order, and returns with 60 bytes
    seeded: the loop ends at class 4, whose 64 bytes would bring the total to
    124, above the limit of 80; the outcome is the same for every amount of
    fuel from 5 up. *)
Theorem seed_40_sequence st fuel :
  wf_state st -> 0 < brk (libc st) ->
  brk (libc st) + 112 <= arena_end (libc st) ->
  (5 <= fuel)%nat ->
  exists st',
    preallocate_memory fuel 40 st = Done (60, st') /\
    seeded [0; 1; 2; 3] st st' /\
    requests (libc st') = requests (libc st) ++ [4; 8; 16; 32].
Proof.
  intros Hwf Hbrk Hroom Hfuel.
  destruct fuel as [|[|[|[|[|f]]]]]; try lia. clear Hfuel.
  assert (forall i, 0 <= i <= 3 -> 0 <= i < CHUNK_CLASSES) as Hr
    by (unfold CHUNK_CLASSES; lia).
  destruct (seed_block_total 0 4 st Hwf (Hr 0 ltac:(lia)))
    as [[_ [? | ?]] | (st1 & H1 & Hwf1 & He1 & Hb1 & _)];
    spans; [lia | lia |].
  destruct (seed_block_total 1 8 st1 Hwf1 (Hr 1 ltac:(lia)))
    as [[_ [? | ?]] | (st2 & H2 & Hwf2 & He2 & Hb2 & _)];
    spans; [lia | lia |].
  destruct (seed_block_total 2 16 st2 Hwf2 (Hr 2 ltac:(lia)))
    as [[_ [? | ?]] | (st3 & H3 & Hwf3 & He3 & Hb3 & _)];
    spans; [lia | lia |].
  destruct (seed_block_total 3 32 st3 Hwf3 (Hr 3 ltac:(lia)))
    as [[_ [? | ?]] | (st4 & H4 & Hwf4 & He4 & Hb4 & _)];
    spans; [lia | lia |].
  exists st4. unfold preallocate_memory.
  rewrite (preallocate_loop_step _ _ _ _ _ 4 st1); [|reflexivity|reflexivity|done].
  rewrite (preallocate_loop_step _ _ _ _ _ 8 st2); [|reflexivity|reflexivity|done].
  rewrite (preallocate_loop_step _ _ _ _ _ 16 st3); [|reflexivity|reflexivity|done].
  rewrite (preallocate_loop_step _ _ _ _ _ 32 st4); [|reflexivity|reflexivity|done].
  rewrite (preallocate_loop_stop _ _ _ _ _ 64); [|reflexivity|reflexivity].
  split; [reflexivity|].
  assert (seeded [0; 1; 2; 3] st st4) as Hseeded.
  { apply (seed_block_Done 0) in H1 as [_ S1]. apply (seed_block_Done 1) in H2 as [_ S2].
    apply (seed_block_Done 2) in H3 as [_ S3]. apply (seed_block_Done 3) in H4 as [_ S4].
    simpl. eauto 10. }
  split; [done|]. by rewrite (seeded_requests _ _ _ Hseeded).
Qed.

Lemma seed_40_sequence_witness :
  exists st',
    preallocate_memory 9 40 demo_state = Done (60, st') /\
    seeded [0; 1; 2; 3] demo_state st' /\
    requests (libc st') = requests (libc demo_state) ++ [4; 8; 16; 32].
Proof.
  apply (seed_40_sequence demo_state 9).
  - split; reflexivity.
  - simpl. lia.
  - simpl. lia.
  - lia.
Defined.

(** ** Balance of the counters after seeding *)

Lemma occurrences_cons j i classes :
  occurrences j (i :: classes) = (if decide (i = j) then 1 else 0) + occurrences j classes.
Proof. reflexivity. Qed.

Lemma occurrences_app j l1 l2 :
  occurrences j (l1 ++ l2) = occurrences j l1 + occurrences j l2.
Proof.
  induction l1 as [| i l1 IH]; [done|].
  rewrite <- app_comm_cons, !occurrences_cons, IH. lia.
Qed.

Lemma round_robin_snoc n :
  round_robin (S n) = round_robin n ++ [Z.of_nat n mod CHUNK_CLASSES].
Proof. unfold round_robin, round_robin_from. by rewrite seq_S, map_app. Qed.

Lemma round_robin_classes k n :
  Forall (fun i => 0 <= i < CHUNK_CLASSES) (round_robin_from k n).
Proof.
  unfold round_robin_from. apply Forall_map, Forall_forall. intros m _.
  by apply Z.mod_pos_bound.
Qed.

(** After [n] iterations class [j] was visited once per full round, and once
    more when the last, partial round got as far as [j]. *)
Lemma occurrences_round_robin j n :
  0 <= j < CHUNK_CLASSES ->
  occurrences j (round_robin n) =
  Z.of_nat n / CHUNK_CLASSES + (if j <? Z.of_nat n mod CHUNK_CLASSES then 1 else 0).
Proof.
  unfold CHUNK_CLASSES. intros Hj. induction n as [| n IH].
  { change (Z.of_nat 0 mod 14) with 0. by replace (j <? 0) with false by lia. }
  rewrite round_robin_snoc, occurrences_app, IH, occurrences_cons. unfold CHUNK_CLASSES.
  cbn [occurrences foldr].
  replace (Z.of_nat (S n)) with (Z.of_nat n + 1) by lia.
  generalize (Z.of_nat n) (Nat2Z.is_nonneg n). intros m Hm.
  destruct (decide (m mod 14 = j)) as [He | Hne];
    destruct (j <? m mod 14) eqn:E1; destruct (j <? (m + 1) mod 14) eqn:E2;
    apply Z.ltb_lt in E1 || apply Z.ltb_ge in E1;
    apply Z.ltb_lt in E2 || apply Z.ltb_ge in E2;
    revert E1 E2; try revert He; try revert Hne;
    Z.div_mod_to_equations; lia.
Qed.

Lemma wrap_add_l x y : wrap (wrap x + y) = wrap (x + y).
Proof. unfold wrap. apply Zplus_mod_idemp_l. Qed.

(** The counter of class [j] grows by the number of visits to [j]. *)
Lemma seeded_counts classes : forall st st' j c,
  seeded classes st st' -> Forall (fun i => 0 <= i < CHUNK_CLASSES) classes ->
  0 <= j -> 0 <= c < WORD ->
  preallocated_counts (mem_manager st) !! Z.to_nat j = Some c ->
  preallocated_counts (mem_manager st') !! Z.to_nat j =
    Some (wrap (c + occurrences j classes)).
Proof.
  induction classes as [| i rest IH]; intros st st' j c H Hall Hj Hrange Hc; simpl in H.
  - subst. cbn [occurrences foldr]. rewrite Z.add_0_r. by rewrite wrap_small.
  - destruct H as (st1 & (b & h & ci & _ & _ & _ & _ & _ & Hci & Hpc) & Hrest).
    inversion Hall as [| ? ? Hi Hall']; subst.
    rewrite occurrences_cons. destruct (decide (i = j)) as [-> | Hne].
    + assert (ci = c) as -> by congruence.
      rewrite (IH st1 st' j (wrap (c + 1))); try done.
      * by rewrite wrap_add_l, Z.add_assoc.
      * apply wrap_range.
      * rewrite Hpc. apply list_lookup_insert_eq. by apply lookup_lt_Some in Hc.
    + rewrite (IH st1 st' j c); try done.
      rewrite Hpc. rewrite list_lookup_insert_ne; [done | lia].
Qed.

Lemma sum_bytes_lower_bound classes :
  Forall (fun i => 0 <= i < CHUNK_CLASSES) classes ->
  4 * Z.of_nat (length classes) <= sum_bytes classes.
Proof.
  induction 1 as [| i rest Hi _ IH]; [done|].
  rewrite sum_bytes_cons. cbn [length].
  pose proof (class_bytes_bounds i ltac:(unfold CHUNK_CLASSES in Hi; lia)). lia.
Qed.

Lemma length_round_robin_from k n : length (round_robin_from k n) = n.
Proof. unfold round_robin_from. by rewrite length_map, length_seq. Qed.

(** C10: when [preallocate_memory] returns after starting from the initial
    state, there is a number [n] of iterations such that the counter of every
    class [j] is the number of full rounds [n / CHUNK_CLASSES], plus one when
    [j] lies below the class [n mod CHUNK_CLASSES] at which the loop stopped.
    Hence the counters are nonincreasing in the class index and any two of
    them differ by at most one. *)
Theorem seeding_is_balanced B fuel l total st' :
  libc_ok l ->
  preallocate_memory fuel B (initial_state l) = Done (total, st') ->
  (exists n, 0 <= n /\ forall j, 0 <= j < CHUNK_CLASSES ->
     preallocated_counts (mem_manager st') !! Z.to_nat j =
       Some (n / CHUNK_CLASSES + (if j <? n mod CHUNK_CLASSES then 1 else 0))) /\
  (forall i j ci cj, 0 <= i <= j -> j < CHUNK_CLASSES ->
     preallocated_counts (mem_manager st') !! Z.to_nat i = Some ci ->
     preallocated_counts (mem_manager st') !! Z.to_nat j = Some cj ->
     cj <= ci <= cj + 1).
Proof.
  intros [Hbrk Hend] Hrun. unfold preallocate_memory in Hrun.
  change (preallocate_loop fuel B 0 0 (initial_state l))
    with (preallocate_loop fuel B 0 (Z.of_nat 0 mod CHUNK_CLASSES) (initial_state l))
    in Hrun.
  pose proof (wrap_range (B * 2)) as Hw.
  apply (preallocate_loop_Done _ B 0 0%nat _ (brk l) total st') in Hrun
    as (n & Hseeded & Hr & Hle & _); try done; try (simpl; lia).
  pose proof (sum_bytes_lower_bound _ (round_robin_classes 0 n)) as Hlow.
  rewrite length_round_robin_from in Hlow.
  assert (forall j, 0 <= j < CHUNK_CLASSES ->
     preallocated_counts (mem_manager st') !! Z.to_nat j =
       Some (Z.of_nat n / CHUNK_CLASSES
             + (if j <? Z.of_nat n mod CHUNK_CLASSES then 1 else 0))) as Hcounts.
  { intros j Hj.
    rewrite (seeded_counts _ _ _ j 0 Hseeded (round_robin_classes 0 n));
      [| lia | unfold WORD; lia |].
    2:{ change (preallocated_counts (mem_manager (initial_state l)))
          with (replicate (Z.to_nat CHUNK_CLASSES) 0).
        apply lookup_replicate_2. lia. }
    fold (round_robin n). rewrite occurrences_round_robin by done.
    f_equal. apply wrap_small. unfold CHUNK_CLASSES.
    destruct (j <? Z.of_nat n mod 14); Z.div_mod_to_equations; unfold WORD in *; lia. }
  split.
  - exists (Z.of_nat n). split; [lia | done].
  - intros i j ci cj Hij Hj Hi' Hj'.
    rewrite Hcounts in Hi' by lia. rewrite Hcounts in Hj' by lia.
    injection Hi' as <-. injection Hj' as <-.
    destruct (i <? Z.of_nat n mod CHUNK_CLASSES) eqn:E1;
      destruct (j <? Z.of_nat n mod CHUNK_CLASSES) eqn:E2; lia.
Qed.

Lemma seeding_is_balanced_witness :
  (exists n, 0 <= n /\ forall j, 0 <= j < CHUNK_CLASSES ->
     preallocated_counts (mem_manager demo_seeded) !! Z.to_nat j =
       Some (n / CHUNK_CLASSES + (if j <? n mod CHUNK_CLASSES then 1 else 0))) /\
  (forall i j ci cj, 0 <= i <= j -> j < CHUNK_CLASSES ->
     preallocated_counts (mem_manager demo_seeded) !! Z.to_nat i = Some ci ->
     preallocated_counts (mem_manager demo_seeded) !! Z.to_nat j = Some cj ->
     cj <= ci <= cj + 1).
Proof.
  apply (seeding_is_balanced 40 5 demo_libc 60 demo_seeded).
  - split; simpl; unfold WORD; lia.
  - vm_compute. reflexivity.
Defined.

(** ** No block changes class under the protocol *)

Lemma is_list_insert_fresh nx p v l : forall hd,
  p ∉ l -> is_list nx hd l -> is_list (<[p := v]> nx) hd l.
Proof.
  induction l as [| b l IH]; intros hd Hp H; [done|].
  destruct H as (-> & Hb & q & Hq & Hl).
  apply not_elem_of_cons in Hp as [Hpb Hpl].
  split; [done|]. split; [done|]. exists q.
  rewrite lookup_insert_ne by done. eauto.
Qed.

Lemma span_pos n : 0 <= n -> 0 < span n.
Proof. intros H. pose proof (span_gt n H). lia. Qed.

Lemma inv_initial l : 0 < brk l -> inv (initial_state l) ∅ ∅.
Proof.
  intros Hbrk. split; [by split|]. split; [done|].
  split; [intros p c H; by rewrite lookup_empty in H|].
  split; [done|].
  intros j Hj. exists NULL, []. split.
  - apply lookup_replicate_2. lia.
  - split; [done|]. split; [constructor|]. intros p Hp. by apply elem_of_nil in Hp.
Qed.

(** Pushing a block that is on no list: it is either unknown to [cls] or in
    the hands of the caller. *)
Lemma lists_push fl nx held cls held' cls' c p hd :
  lists_ok fl nx held cls -> 0 <= c < CHUNK_CLASSES -> p <> NULL ->
  fl !! Z.to_nat c = Some hd ->
  cls !! p = None \/ is_Some (held !! p) ->
  cls' !! p = Some c -> held' !! p = None ->
  (forall q, q <> p -> cls' !! q = cls !! q /\ held' !! q = held !! q) ->
  lists_ok (<[Z.to_nat c := p]> fl) (<[p := hd]> nx) held' cls'.
Proof.
  intros Hok Hc Hp Hhd Hfree Hclsp Hheldp Hother j Hj.
  assert (forall i (l : list Z), 0 <= i < CHUNK_CLASSES ->
            (forall q, q ∈ l -> cls !! q = Some i /\ held !! q = None) -> p ∉ l) as Hnotin.
  { intros i l Hi Hmem Hin. destruct (Hmem p Hin) as [H1 H2].
    destruct Hfree as [H | [x H]]; congruence. }
  destruct (Hok j Hj) as (hdj & l & Hhdj & Hl & Hnd & Hmem).
  pose proof (Hnotin j l Hj Hmem) as Hpl.
  assert (forall q, q ∈ l -> cls' !! q = Some j /\ held' !! q = None) as Hmem'.
  { intros q Hq. destruct (Hother q) as [-> ->]; [|by apply Hmem].
    intros ->. done. }
  destruct (decide (j = c)) as [-> | Hne].
  - exists p, (p :: l). split.
    { apply list_lookup_insert_eq. by apply lookup_lt_Some in Hhd. }
    assert (hdj = hd) as -> by congruence.
    split.
    { split; [done|]. split; [done|]. exists hd. rewrite lookup_insert_eq.
      split; [done|]. by apply is_list_insert_fresh. }
    split; [by apply NoDup_cons|].
    intros q Hq. apply elem_of_cons in Hq as [-> | Hq]; [done | by apply Hmem'].
  - exists hdj, l. split.
    { rewrite list_lookup_insert_ne; [done | lia]. }
    split; [by apply is_list_insert_fresh|]. done.
Qed.

(** Popping the head of the list of class [c]. *)
Lemma lists_pop fl nx held cls c hd nxt :
  lists_ok fl nx held cls -> 0 <= c < CHUNK_CLASSES ->
  fl !! Z.to_nat c = Some hd -> hd <> NULL -> nx !! hd = Some nxt ->
  cls !! hd = Some c /\ held !! hd = None /\
  lists_ok (<[Z.to_nat c := nxt]> fl) nx (<[hd := c]> held) cls.
Proof.
  intros Hok Hc Hhd Hnn Hnxt.
  destruct (Hok c Hc) as (hd' & l & Hhd' & Hl & Hnd & Hmem).
  assert (hd' = hd) as -> by congruence.
  destruct l as [| b l]; [done|].
  destruct Hl as (<- & _ & q & Hq & Hl).
  assert (q = nxt) as -> by congruence.
  destruct (Hmem hd ltac:(left)) as [Hcls Hheld].
  apply NoDup_cons in Hnd as [Hhdl Hnd].
  split; [done|]. split; [done|].
  intros j Hj. destruct (decide (j = c)) as [-> | Hne].
  - exists nxt, l. split.
    { apply list_lookup_insert_eq. by apply lookup_lt_Some in Hhd. }
    split; [done|]. split; [done|].
    intros p Hp. destruct (Hmem p ltac:(by right)) as [H1 H2].
    split; [done|]. rewrite lookup_insert_ne; [done|]. intros ->. done.
  - destruct (Hok j Hj) as (hdj & lj & Hhdj & Hlj & Hndj & Hmemj).
    exists hdj, lj. split.
    { rewrite list_lookup_insert_ne; [done | lia]. }
    split; [done|]. split; [done|].
    intros p Hp. destruct (Hmemj p Hp) as [H1 H2].
    split; [done|]. rewrite lookup_insert_ne; [done|]. intros ->. congruence.
Qed.

(** Handing a fresh block to the caller. *)
Lemma lists_fresh fl nx held cls p c :
  lists_ok fl nx held cls -> cls !! p = None ->
  lists_ok fl nx (<[p := c]> held) (<[p := c]> cls).
Proof.
  intros Hok Hp j Hj. destruct (Hok j Hj) as (hd & l & Hhd & Hl & Hnd & Hmem).
  exists hd, l. do 3 (split; [done|]).
  intros q Hq. destruct (Hmem q Hq) as [H1 H2].
  assert (q <> p) by (intros ->; congruence).
  by rewrite !lookup_insert_ne.
Qed.

Lemma class_of_Done size c : get_chunk_index size = Done c -> class_of size = Some c.
Proof. unfold class_of. by intros ->. Qed.

Lemma class_of_Some size c : class_of size = Some c -> get_chunk_index size = Done c.
Proof. unfold class_of. destruct (get_chunk_index size); congruence. Qed.

(** [mm_malloc] keeps the invariant; a block it returns goes to the caller
    with the class of the request, which is the class [cls] knows it by. *)
Lemma mm_malloc_inv st held cls size p st' :
  inv st held cls -> mm_malloc size st = Done (p, st') ->
  (p = NULL /\ inv st' held cls) \/
  (p <> NULL /\ exists c cls',
      class_of size = Some c /\ cls ⊆ cls' /\ cls' !! p = Some c /\
      inv st' (<[p := c]> held) cls').
Proof.
  intros (Hwf & Hbrk & Hknown & Hheld & Hok) H.
  apply mm_malloc_Done in H as [(_ & -> & ->) | (_ & index & head & Hi & Hhead & H)];
    [by left|].
  apply array_get_Done in Hhead as [Hr Hhead].
  destruct H as [(Hnn & -> & nxt & Hnxt & H) | (-> & sz & Hsz & H)].
  - right. split; [done|].
    apply set_free_list_Done in H as (_ & _ & Hfl & Hpc & Hnx & Hl).
    destruct (lists_pop _ _ _ _ index head nxt Hok Hr Hhead Hnn Hnxt)
      as (Hcls & Hfree & Hok').
    exists index, cls. split; [by apply class_of_Done|]. split; [done|]. split; [done|].
    split. { destruct Hwf. unfold wf_state. by rewrite Hfl, Hpc, length_insert. }
    rewrite Hl, Hfl, Hnx. split; [done|]. split; [done|]. split; [|done].
    intros q c Hq. destruct (decide (q = head)) as [-> | Hne].
    + rewrite lookup_insert_eq in Hq. congruence.
    + rewrite lookup_insert_ne in Hq by done. eauto.
  - apply call_malloc_eq in H as (Hmm & Hnx & Hm).
    apply chunk_size_class_bytes in Hsz as [Hir ->].
    pose proof (class_bytes_bounds index Hir) as Hcb.
    pose proof (span_pos (class_bytes index) ltac:(lia)) as Hspan.
    apply malloc_cases in Hm as (_ & _ & [(-> & Hb' & _) | (-> & Hb')]).
    + right. split; [unfold NULL; lia|].
      assert (cls !! brk (libc st) = None) as Hfresh.
      { destruct (cls !! brk (libc st)) as [c|] eqn:E; [|done].
        apply Hknown in E. lia. }
      exists index, (<[brk (libc st) := index]> cls).
      split; [by apply class_of_Done|]. split; [by apply insert_subseteq|].
      split; [by rewrite lookup_insert_eq|].
      split. { unfold wf_state. by rewrite Hmm. }
      split; [lia|]. split.
      { intros q c Hq. destruct (decide (q = brk (libc st))) as [-> | Hne]; [lia|].
        rewrite lookup_insert_ne in Hq by done. apply Hknown in Hq. lia. }
      split.
      { intros q c Hq. destruct (decide (q = brk (libc st))) as [-> | Hne].
        - rewrite lookup_insert_eq in Hq. by rewrite lookup_insert_eq.
        - rewrite lookup_insert_ne in Hq by done. rewrite lookup_insert_ne by done. eauto. }
      rewrite Hmm, Hnx. by apply lists_fresh.
    + left. split; [done|]. split. { unfold wf_state. by rewrite Hmm. }
      rewrite Hb', Hmm, Hnx. done.
Qed.

(** [mm_free] of a block the caller holds, with a size of its class, keeps
    the invariant and takes the block from the caller. *)
Lemma mm_free_inv st held cls p size st' c :
  inv st held cls -> mm_free p size st = Done st' ->
  p <> NULL -> size <> 0 -> size <= MAX_CHUNK_SIZE ->
  class_of size = Some c -> held !! p = Some c ->
  inv st' (delete p held) cls.
Proof.
  intros (Hwf & Hbrk & Hknown & Hheld & Hok) H Hp Hs0 Hsmax Hc Hhp.
  apply class_of_Some in Hc.
  apply mm_free_Done in H as [([? | [? | ?]] & _) | (_ & _ & index & head & Hi & Hhead & H)];
    [done | done | lia |].
  assert (index = c) as -> by congruence.
  apply array_get_Done in Hhead as [Hr Hhead].
  apply set_free_list_Done in H as (_ & _ & Hfl & Hpc & Hnx & Hl). simpl in *.
  split. { destruct Hwf. unfold wf_state. by rewrite Hfl, Hpc, length_insert. }
  rewrite Hl, Hfl, Hnx. split; [done|]. split; [done|]. split.
  { intros q d Hq. destruct (decide (q = p)) as [-> | Hne].
    - by rewrite lookup_delete_eq in Hq.
    - rewrite lookup_delete_ne in Hq by done. eauto. }
  apply (lists_push _ _ held cls); try done.
  - right. eauto.
  - eauto.
  - apply lookup_delete_eq.
  - intros q Hq. split; [done|]. by apply lookup_delete_ne.
Qed.

(** A seeding step keeps the invariant of a caller who holds nothing. *)
Lemma seeds_one_inv i st st' cls :
  0 <= i < CHUNK_CLASSES -> inv st ∅ cls -> seeds_one i st st' ->
  exists cls', inv st' ∅ cls'.
Proof.
  intros Hi (Hwf & Hbrk & Hknown & Hheld & Hok) Hone.
  pose proof (seeds_one_wf _ _ _ Hone Hwf) as Hwf'.
  destruct Hone as (b & h & n & Hm & Hb & Hh & Hnx & Hfl & _ & _).
  pose proof (class_bytes_bounds i ltac:(unfold CHUNK_CLASSES in Hi; lia)) as Hcb.
  pose proof (span_pos (class_bytes i) ltac:(lia)) as Hspan.
  apply malloc_cases in Hm as (_ & _ & [(-> & Hb' & _) | (-> & _)]); [|done].
  assert (cls !! brk (libc st) = None) as Hfresh.
  { destruct (cls !! brk (libc st)) as [c|] eqn:E; [|done]. apply Hknown in E. lia. }
  exists (<[brk (libc st) := i]> cls).
  split; [done|]. split; [lia|]. split.
  { intros q c Hq. destruct (decide (q = brk (libc st))) as [-> | Hne]; [lia|].
    rewrite lookup_insert_ne in Hq by done. apply Hknown in Hq. lia. }
  split; [intros q c Hq; by rewrite lookup_empty in Hq|].
  rewrite Hfl, Hnx. apply (lists_push _ _ ∅ cls); try done.
  - by left.
  - by rewrite lookup_insert_eq.
  - intros q Hq. split; [|done]. by rewrite lookup_insert_ne.
Qed.

Lemma seeded_inv classes : forall st st' cls,
  Forall (fun i => 0 <= i < CHUNK_CLASSES) classes ->
  inv st ∅ cls -> seeded classes st st' ->
  exists cls', inv st' ∅ cls'.
Proof.
  induction classes as [| i rest IH]; intros st st' cls Hall Hinv H; simpl in H.
  - subst. eauto.
  - destruct H as (st1 & Hone & Hrest). inversion Hall as [| ? ? Hi Hall']; subst.
    destruct (seeds_one_inv i st st1 cls Hi Hinv Hone) as (cls1 & Hinv1). eauto.
Qed.

(** Along a run that follows the protocol there is one assignment of classes
    to blocks that agrees with the size of every accepted release and of
    every successful allocation. *)
Lemma run_keeps_classes ops : forall st held cls evs st',
  inv st held cls -> run ops st = Done (evs, st') ->
  follows_protocol held evs = true ->
  exists cls', cls ⊆ cls' /\
    (forall p s, Released p s ∈ evs -> p <> NULL -> 0 < s <= MAX_CHUNK_SIZE ->
       exists c, class_of s = Some c /\ cls' !! p = Some c) /\
    (forall p s, Allocated s p ∈ evs -> p <> NULL ->
       exists c, class_of s = Some c /\ cls' !! p = Some c).
Proof.
  induction ops as [| o ops IH]; intros st held cls evs st' Hinv Hrun Hprot.
  - simpl in Hrun. injection Hrun as <- <-. exists cls. split; [done|].
    split; intros p s Hin; by apply elem_of_nil in Hin.
  - apply run_cons_Done in Hrun as (ev & st1 & evs' & Hstep & Hrun & ->).
    apply step_Done in Hstep as [(size & p & -> & -> & H) | (ptr & size & -> & -> & H)].
    + cbn [follows_protocol] in Hprot.
      destruct (mm_malloc_inv _ _ _ _ _ _ Hinv H)
        as [(-> & Hinv1) | (Hp & c & cls1 & Hc & Hsub & Hcp & Hinv1)].
      * change (NULL =? NULL) with true in Hprot. cbn iota in Hprot.
        destruct (IH _ _ _ _ _ Hinv1 Hrun Hprot) as (cls' & Hsub' & Hrel & Hall).
        exists cls'. split; [done|]. split.
        -- intros q s Hin. apply elem_of_cons in Hin as [[=] | Hin]. eauto.
        -- intros q s Hin Hq. apply elem_of_cons in Hin as [[= -> ->] | Hin]; [done|]. eauto.
      * replace (p =? NULL) with false in Hprot by lia. rewrite Hc in Hprot.
        destruct (IH _ _ _ _ _ Hinv1 Hrun Hprot) as (cls' & Hsub' & Hrel & Hall).
        exists cls'. split; [by etrans|]. split.
        -- intros q s Hin. apply elem_of_cons in Hin as [[=] | Hin]. eauto.
        -- intros q s Hin Hq. apply elem_of_cons in Hin as [[= -> ->] | Hin]; [|eauto].
           exists c. split; [done|]. by apply (lookup_weaken cls1).
    + cbn [follows_protocol] in Hprot.
      destruct ((ptr =? NULL) || (size =? 0) || (MAX_CHUNK_SIZE <? size)) eqn:G.
      * rewrite mm_free_guard in H by (rewrite !orb_true_iff in G; lia).
        injection H as <-.
        destruct (IH _ _ _ _ _ Hinv Hrun Hprot) as (cls' & Hsub' & Hrel & Hall).
        exists cls'. split; [done|]. split.
        -- intros q s Hin Hq Hs. apply elem_of_cons in Hin as [[= -> ->] | Hin]; [|eauto].
           rewrite !orb_true_iff in G. lia.
        -- intros q s Hin. apply elem_of_cons in Hin as [[=] | Hin]. eauto.
      * rewrite !orb_false_iff in G.
        destruct (class_of size) as [c|] eqn:Hc; [|done].
        destruct (held !! ptr) as [c'|] eqn:Hh; [|done].
        apply andb_true_iff in Hprot as [Hcc Hprot].
        assert (c' = c) as -> by lia.
        assert (inv st1 (delete ptr held) cls) as Hinv1
          by (apply (mm_free_inv st held cls ptr size st1 c); try done;
              unfold NULL in *; lia).
        destruct (IH _ _ _ _ _ Hinv1 Hrun Hprot) as (cls' & Hsub' & Hrel & Hall).
        exists cls'. split; [done|]. split.
        -- intros q s Hin Hq Hs. apply elem_of_cons in Hin as [[= -> ->] | Hin]; [|eauto].
           exists c. split; [done|]. apply (lookup_weaken cls); [|done].
           destruct Hinv as (_ & _ & _ & Hheld & _). eauto.
        -- intros q s Hin. apply elem_of_cons in Hin as [[=] | Hin]. eauto.
Qed.

(** C9, as stated, fails: the caller allocates a block of class 0, releases
    it, gets it again, releases it with a size of class 1, and the next
    allocation of class 1 returns this block, which had been released with a
    size of class 0. *)
Lemma mismatched_release_crosses_classes :
  ~ no_cross_class_reuse demo_state mismatched_ops.
Proof.
  intros H.
  specialize (H [Allocated 4 4096; Released 4096 4; Allocated 4 4096;
                 Released 4096 8; Allocated 8 4096]
                (state_after (run mismatched_ops demo_state))
                1%nat 4%nat 4096 4 8).
  discriminate H.
  - vm_compute. reflexivity.
  - lia.
  - reflexivity.
  - reflexivity.
  - unfold NULL. lia.
  - unfold MAX_CHUNK_SIZE. lia.
Qed.

(** C9, amended: start from the initial state, seed it with any budget, and
    let the caller follow the protocol (it passes to [mm_free] only blocks it
    holds at that moment, with a size of the class of the allocation that
    returned the block).  Then a block released with a size of class [c] is
    returned by a later allocation only for a size of the same class [c]. *)
Theorem no_cross_class_reuse_under_protocol B fuel l total st0 ops evs st' :
  libc_ok l ->
  preallocate_memory fuel B (initial_state l) = Done (total, st0) ->
  run ops st0 = Done (evs, st') ->
  follows_protocol ∅ evs = true ->
  forall t t' p s s',
    (t < t')%nat ->
    evs !! t = Some (Released p s) -> evs !! t' = Some (Allocated s' p) ->
    p <> NULL -> 0 < s <= MAX_CHUNK_SIZE ->
    exists c, class_of s = Some c /\ class_of s' = Some c.
Proof.
  intros [Hbrk Hend] Hseed Hrun Hprot t t' p s s' _ Ht Ht' Hp Hs.
  unfold preallocate_memory in Hseed.
  change (preallocate_loop fuel B 0 0 (initial_state l))
    with (preallocate_loop fuel B 0 (Z.of_nat 0 mod CHUNK_CLASSES) (initial_state l))
    in Hseed.
  pose proof (wrap_range (B * 2)) as Hw.
  apply (preallocate_loop_Done _ B 0 0%nat _ (brk l) total st0) in Hseed
    as (n & Hseeded & _); try done; try (simpl; lia).
  destruct (seeded_inv _ _ _ ∅ (round_robin_classes 0 n) (inv_initial l Hbrk) Hseeded)
    as (cls0 & Hinv).
  destruct (run_keeps_classes ops st0 ∅ cls0 evs st' Hinv Hrun Hprot)
    as (cls & _ & Hrel & Hall).
  destruct (Hrel p s) as (c & Hc & Hpc); [by eapply list_elem_of_lookup_2 | done | done |].
  destruct (Hall p s') as (c' & Hc' & Hpc'); [by eapply list_elem_of_lookup_2 | done |].
  exists c. split; [done|]. congruence.
Qed.

Lemma no_cross_class_reuse_under_protocol_witness :
  exists c, class_of 8 = Some c /\ class_of 7 = Some c.
Proof.
  apply (no_cross_class_reuse_under_protocol 40 5 demo_libc 60 demo_seeded demo_ops
           [Allocated 8 4112; Released 4112 8; Allocated 7 4112; Allocated 64 4208]
           (state_after (run demo_ops demo_seeded)) ltac:(split; simpl; unfold WORD; lia)
           ltac:(vm_compute; reflexivity) ltac:(vm_compute; reflexivity)
           ltac:(vm_compute; reflexivity) 1%nat 2%nat 4112 8 7).
  - lia.
  - reflexivity.
  - reflexivity.
  - unfold NULL. lia.
  - unfold MAX_CHUNK_SIZE. lia.
Defined.

Lemma mm_malloc_reuses_released_block_witness :
  demo_block = 4208 /\ exists st5, mm_malloc 64 demo_st4 = Done (demo_block, st5).
Proof.
  split; [reflexivity|].
  apply (mm_malloc_reuses_released_block demo_seeded demo_block demo_st1
           demo_ops1 (value_after [] (run demo_ops1 demo_st1)) demo_st2 demo_st3
           demo_ops2 (value_after [] (run demo_ops2 demo_st3)) demo_st4).
  - vm_compute. reflexivity.
  - vm_compute. discriminate.
  - repeat constructor. unfold other_class. simpl. discriminate.
  - vm_compute. reflexivity.
  - vm_compute. reflexivity.
  - repeat constructor; unfold other_class; simpl; discriminate.
  - vm_compute. reflexivity.
Defined.

(** ** Calls that run to their end on the sizes from 3 to 32768 *)

(** Under the invariant [mm_malloc] indexes inside [free_list] and reads only
    links that were written, for every size that resolves to one of the
    [CHUNK_CLASSES] lists (the size of the block behind each link is not part
    of the state, see [store_next]). *)
Lemma mm_malloc_defined st held cls size :
  inv st held cls -> 3 <= size <= 32768 ->
  exists p st', mm_malloc size st = Done (p, st').
Proof.
  intros (Hwf & _ & _ & _ & Hok) Hs.
  destruct (get_chunk_index_below_top size Hs) as (i & Hi & Hr).
  destruct (Hok i Hr) as (hd & l & Hhd & Hl & _).
  unfold mm_malloc.
  replace ((size =? 0) || (MAX_CHUNK_SIZE <? size)) with false
    by (symmetry; apply orb_false_iff; unfold MAX_CHUNK_SIZE; lia).
  rewrite Hi. cbn [bind]. unfold get_free_list.
  rewrite (array_get_lookup _ _ i hd) by done. cbn [bind].
  destruct (hd =? NULL) eqn:E; cbn [negb].
  - rewrite chunk_size_in_range by (unfold CHUNK_CLASSES in Hr; lia). cbn [bind].
    destruct (call_malloc (4 * 2 ^ i) st) as [p st']. eauto.
  - destruct l as [| b l]; [simpl in Hl; lia|].
    destruct Hl as (<- & _ & q & Hq & _).
    unfold load_next. rewrite Hq. cbn [bind].
    unfold set_free_list. rewrite array_set_in_range; [|done|by apply lookup_lt_Some in Hhd].
    cbn [bind]. eauto.
Qed.

(** [mm_free] has a defined result for every such size, whatever the
    pointer. *)
Lemma mm_free_defined st ptr size :
  wf_state st -> 3 <= size <= 32768 ->
  exists st', mm_free ptr size st = Done st'.
Proof.
  intros Hwf Hs.
  destruct (get_chunk_index_below_top size Hs) as (i & Hi & Hr).
  destruct (wf_state_lookups st i Hwf Hr) as (hd & _ & Hhd & _).
  unfold mm_free.
  destruct ((ptr =? NULL) || (size =? 0) || (MAX_CHUNK_SIZE <? size)); [eauto|].
  rewrite Hi. cbn [bind]. unfold get_free_list.
  rewrite (array_get_lookup _ _ i hd) by done. cbn [bind].
  unfold set_free_list. cbn [store_next mem_manager].
  rewrite array_set_in_range; [|done|by apply lookup_lt_Some in Hhd].
  cbn [bind]. eauto.
Qed.

(** * Further properties of the code *)

(** ** The resolver on the sizes it handles *)

(** On every size from 3 to 65536 [get_chunk_index] returns the index of the
    smallest entry of [chunk_sizes] that holds the request. *)
Theorem resolver_smallest_class s :
  3 <= s <= 65536 ->
  exists i, get_chunk_index s = Done i /\ 0 <= i <= 14 /\
            chunk_size i = Done (4 * 2 ^ i) /\
            s <= 4 * 2 ^ i /\
            (forall j, 0 <= j < i -> 4 * 2 ^ j < s).
Proof. apply get_chunk_index_smallest_class. Qed.

Lemma resolver_smallest_class_witness :
  exists i, get_chunk_index 100 = Done i /\ 0 <= i <= 14 /\
            chunk_size i = Done (4 * 2 ^ i) /\
            100 <= 4 * 2 ^ i /\
            (forall j, 0 <= j < i -> 4 * 2 ^ j < 100).
Proof. apply (resolver_smallest_class 100). lia. Defined.

Lemma pow2_lt_mono a b : 0 <= a < b -> 2 ^ a < 2 ^ b.
Proof. intros H. apply Z.pow_lt_mono_r; lia. Qed.

(** The resolver is monotone: a larger request never gets a smaller class. *)
Theorem resolver_monotone s1 s2 :
  3 <= s1 -> s1 <= s2 -> s2 <= 65536 ->
  exists i1 i2, get_chunk_index s1 = Done i1 /\ get_chunk_index s2 = Done i2 /\
                i1 <= i2.
Proof.
  intros H1 H12 H2.
  destruct (get_chunk_index_smallest_class s1 ltac:(lia)) as (i1 & Hi1 & Hr1 & _ & _ & Hmin1).
  destruct (get_chunk_index_smallest_class s2 ltac:(lia)) as (i2 & Hi2 & Hr2 & _ & Hle2 & _).
  exists i1, i2. do 2 (split; [done|]).
  destruct (decide (i1 <= i2)) as [|Hgt]; [done|].
  specialize (Hmin1 i2 ltac:(lia)). lia.
Qed.

Lemma resolver_monotone_witness :
  exists i1 i2, get_chunk_index 100 = Done i1 /\ get_chunk_index 129 = Done i2 /\
                i1 <= i2.
Proof. apply (resolver_monotone 100 129); lia. Defined.

(** Internal fragmentation: the class chosen for a request of at least 3
    bytes is less than twice the request. *)
Theorem resolver_wastes_less_than_half s :
  3 <= s <= 65536 ->
  exists i sz, get_chunk_index s = Done i /\ chunk_size i = Done sz /\
               s <= sz < 2 * s.
Proof.
  intros Hs.
  destruct (get_chunk_index_smallest_class s Hs) as (i & Hi & Hr & Hsz & Hle & Hmin).
  exists i, (4 * 2 ^ i). do 2 (split; [done|]). split; [done|].
  destruct (decide (i = 0)) as [-> | Hne]; [simpl; lia|].
  specialize (Hmin (i - 1) ltac:(lia)).
  replace (2 ^ i) with (2 * 2 ^ (i - 1)); [lia|].
  rewrite <- Z.pow_succ_r by lia. f_equal. lia.
Qed.

Lemma resolver_wastes_less_than_half_witness :
  exists i sz, get_chunk_index 100 = Done i /\ chunk_size i = Done sz /\
               100 <= sz < 2 * 100.
Proof. apply (resolver_wastes_less_than_half 100). lia. Defined.

(** Round trip between the table and the resolver: the size stored at index
    [i] of [chunk_sizes] resolves back to [i]. *)
Theorem chunk_size_resolves_to_its_index i sz :
  chunk_size i = Done sz -> get_chunk_index sz = Done i.
Proof.
  intros H. apply chunk_size_Done in H as [Hi ->].
  replace (4 * 2 ^ i) with (2 ^ (i + 2)).
  - rewrite get_chunk_index_pow2 by lia. f_equal. lia.
  - rewrite Z.pow_add_r by lia. change (2 ^ 2) with 4. lia.
Qed.

Lemma chunk_size_resolves_to_its_index_witness :
  get_chunk_index 128 = Done 5.
Proof. apply (chunk_size_resolves_to_its_index 5 128). reflexivity. Defined.

(** ** The seeder: bounds, requests and lists *)

Lemma class_bytes_seeded i : 0 <= i < CHUNK_CLASSES -> 4 <= class_bytes i <= 32768.
Proof.
  unfold CHUNK_CLASSES. intros Hi. unfold class_bytes, MIN_CHUNK_SIZE.
  assert (2 ^ 0 <= 2 ^ i) by (apply Z.pow_le_mono_r; lia).
  assert (2 ^ i <= 2 ^ 13) by (apply Z.pow_le_mono_r; lia).
  change (2 ^ 0) with 1 in *. change (2 ^ 13) with 8192 in *. lia.
Qed.

Lemma sum_bytes_requests classes :
  sum_bytes classes = foldr Z.add 0 (map class_bytes classes).
Proof. induction classes as [| i rest IH]; [done|]. simpl. by rewrite <- IH. Qed.

(** What a run of the seeder that returns has done, seen from the initial
    state or any other: the iterations, the byte count, and the bound by the
    wrapped limit. *)
Lemma preallocate_memory_Done fuel B st total st' :
  libc_ok (libc st) ->
  preallocate_memory fuel B st = Done (total, st') ->
  exists n,
    seeded (round_robin n) st st' /\
    total = sum_bytes (round_robin n) /\
    total <= wrap (B * 2) /\
    wrap (B * 2) < total + class_bytes (Z.of_nat n mod CHUNK_CLASSES).
Proof.
  intros [Hbrk Hend] Hrun. unfold preallocate_memory in Hrun.
  change (preallocate_loop fuel B 0 0 st)
    with (preallocate_loop fuel B 0 (Z.of_nat 0 mod CHUNK_CLASSES) st) in Hrun.
  pose proof (wrap_range (B * 2)) as Hw.
  apply (preallocate_loop_Done _ B 0 0%nat _ (brk (libc st)) total st') in Hrun
    as (n & Hseeded & Hr & Hle & Hstop); try done; try lia.
  exists n. unfold round_robin. split; [done|]. split; [lia|]. done.
Qed.

(** The seeder asks [malloc] only for sizes between 4 and 32768: the
    65536-byte entry of [chunk_sizes] is never seeded.  The byte count it
    reports is the sum of the sizes it asked for. *)
Theorem preallocate_memory_requests fuel B st total st' :
  libc_ok (libc st) ->
  preallocate_memory fuel B st = Done (total, st') ->
  exists sizes,
    requests (libc st') = requests (libc st) ++ sizes /\
    Forall (fun sz => 4 <= sz <= 32768) sizes /\
    total = foldr Z.add 0 sizes.
Proof.
  intros Hok Hrun.
  destruct (preallocate_memory_Done _ _ _ _ _ Hok Hrun) as (n & Hseeded & Hr & _).
  exists (map class_bytes (round_robin n)).
  split; [by apply seeded_requests|]. split.
  - apply Forall_map. eapply Forall_impl; [apply round_robin_classes|].
    intros i Hi. by apply class_bytes_seeded.
  - by rewrite <- sum_bytes_requests.
Qed.

Lemma preallocate_memory_requests_witness :
  exists sizes,
    requests (libc demo_seeded) = requests (libc demo_state) ++ sizes /\
    Forall (fun sz => 4 <= sz <= 32768) sizes /\
    60 = foldr Z.add 0 sizes.
Proof.
  apply (preallocate_memory_requests 5 40 demo_state 60 demo_seeded).
  - split; simpl; unfold WORD; lia.
  - vm_compute. reflexivity.
Defined.

(** The doubling of the budget is done in [size_t]: for a budget of 2^63
    bytes or more it overflows, and the seeder stays below [2 * B - 2^64]. *)
Theorem preallocate_memory_budget_overflow fuel B st total st' :
  libc_ok (libc st) -> 2 ^ 63 <= B < 2 ^ 64 ->
  preallocate_memory fuel B st = Done (total, st') ->
  total <= 2 * B - 2 ^ 64.
Proof.
  intros Hok HB Hrun.
  destruct (preallocate_memory_Done _ _ _ _ _ Hok Hrun) as (n & _ & _ & Hle & _).
  assert (wrap (B * 2) = 2 * B - 2 ^ 64) as <-; [|done].
  unfold wrap, WORD. symmetry. apply Z.mod_unique with 1; lia.
Qed.

Lemma preallocate_memory_budget_overflow_witness :
  0 <= 2 * (2 ^ 63) - 2 ^ 64.
Proof.
  apply (preallocate_memory_budget_overflow 1 (2 ^ 63) demo_state 0 demo_state).
  - split; simpl; unfold WORD; lia.
  - lia.
  - vm_compute. reflexivity.
Defined.

Lemma is_list_unique nx l1 : forall hd l2,
  is_list nx hd l1 -> is_list nx hd l2 -> l1 = l2.
Proof.
  induction l1 as [| b l1 IH]; intros hd [| c l2] H1 H2; simpl in *.
  - done.
  - destruct H2 as (-> & Hc & _). done.
  - destruct H1 as (-> & Hb & _). done.
  - destruct H1 as (-> & _ & q & Hq & H1). destruct H2 as (<- & _ & q' & Hq' & H2).
    assert (q' = q) as -> by congruence. f_equal. eauto.
Qed.

(** One seeding step puts its fresh block in front of the list of its class
    and leaves the other lists as they are. *)
Lemma seeds_one_list i j st st' cls l :
  0 <= i < CHUNK_CLASSES -> 0 <= j < CHUNK_CLASSES ->
  inv st ∅ cls -> seeds_one i st st' -> list_at st j l ->
  list_at st' j (if decide (i = j) then brk (libc st) :: l else l).
Proof.
  intros Hi Hj (Hwf & Hbrk & Hknown & _ & Hok) Hone (hd & Hhd & Hl).
  destruct Hone as (b & h & n & Hm & Hb & Hh & Hnx & Hfl & _ & _).
  pose proof (class_bytes_seeded i Hi) as Hcb.
  apply malloc_cases in Hm as (_ & _ & [(-> & _) | (-> & _)]); [|done].
  destruct (Hok j Hj) as (hd' & l' & Hhd' & Hl' & _ & Hmem).
  assert (hd' = hd) as -> by congruence.
  assert (l' = l) as -> by eauto using is_list_unique.
  assert (brk (libc st) ∉ l) as Hfresh.
  { intros Hin. destruct (Hmem _ Hin) as [Hc _]. apply Hknown in Hc. lia. }
  unfold list_at. rewrite Hfl, Hnx. destruct (decide (i = j)) as [-> | Hne].
  - exists (brk (libc st)). split.
    { apply list_lookup_insert_eq. by apply lookup_lt_Some in Hhd. }
    assert (h = hd) as -> by congruence.
    split; [done|]. split; [done|]. exists hd. rewrite lookup_insert_eq.
    split; [done|]. by apply is_list_insert_fresh.
  - exists hd. split; [rewrite list_lookup_insert_ne; [done | lia]|].
    by apply is_list_insert_fresh.
Qed.

(** Seeding prepends to the list of class [j] as many blocks as there were
    visits to [j]. *)
Lemma seeded_lists classes : forall st st' cls j l,
  Forall (fun i => 0 <= i < CHUNK_CLASSES) classes -> 0 <= j < CHUNK_CLASSES ->
  inv st ∅ cls -> seeded classes st st' -> list_at st j l ->
  exists l', list_at st' j (l' ++ l) /\ Z.of_nat (length l') = occurrences j classes.
Proof.
  induction classes as [| i rest IH]; intros st st' cls j l Hall Hj Hinv H Hl; simpl in H.
  - subst. by exists [].
  - destruct H as (st1 & Hone & Hrest). inversion Hall as [| ? ? Hi Hall']; subst.
    pose proof (seeds_one_list i j st st1 cls l Hi Hj Hinv Hone Hl) as Hl1.
    destruct (seeds_one_inv i st st1 cls Hi Hinv Hone) as (cls1 & Hinv1).
    destruct (IH st1 st' cls1 j _ Hall' Hj Hinv1 Hrest Hl1) as (l' & Hl' & Hlen).
    rewrite occurrences_cons. destruct (decide (i = j)) as [-> | Hne].
    + exists (l' ++ [brk (libc st)]). rewrite <- app_assoc. split; [done|].
      rewrite length_app. simpl. lia.
    + exists l'. split; [done | lia].
Qed.

Lemma list_at_initial l j :
  0 <= j < CHUNK_CLASSES -> list_at (initial_state l) j [].
Proof.
  intros Hj. exists NULL. split; [|done]. apply lookup_replicate_2. lia.
Qed.

(** After [n] iterations from the initial state no counter has wrapped. *)
Lemma seeded_counts_initial l n st' j :
  0 <= j < CHUNK_CLASSES ->
  seeded (round_robin n) (initial_state l) st' ->
  sum_bytes (round_robin n) < WORD ->
  preallocated_counts (mem_manager st') !! Z.to_nat j =
    Some (occurrences j (round_robin n)).
Proof.
  intros Hj Hseeded Hsum.
  pose proof (sum_bytes_lower_bound _ (round_robin_classes 0 n)) as Hlow.
  rewrite length_round_robin_from in Hlow. fold (round_robin n) in Hlow.
  rewrite (seeded_counts _ _ _ j 0 Hseeded (round_robin_classes 0 n));
    [| lia | unfold WORD; lia | apply lookup_replicate_2; lia].
  f_equal. apply wrap_small. rewrite occurrences_round_robin by done.
  unfold CHUNK_CLASSES.
  destruct (j <? Z.of_nat n mod 14); Z.div_mod_to_equations; unfold WORD in *; lia.
Qed.

(** After seeding from the initial state every free list is a
    [NULL]-terminated chain of distinct blocks, and the counter of its class
    is the number of blocks on it. *)
Theorem seeded_lists_match_counts fuel B l total st' :
  libc_ok l ->
  preallocate_memory fuel B (initial_state l) = Done (total, st') ->
  forall j, 0 <= j < CHUNK_CLASSES ->
    exists blocks,
      list_at st' j blocks /\ NoDup blocks /\
      preallocated_counts (mem_manager st') !! Z.to_nat j =
        Some (Z.of_nat (length blocks)).
Proof.
  intros Hok Hrun j Hj.
  destruct (preallocate_memory_Done fuel B (initial_state l) total st' Hok Hrun) as (n & Hseeded & Hr & Hle & _).
  pose proof (wrap_range (B * 2)) as Hw.
  destruct Hok as [Hbrk _].
  destruct (seeded_lists _ _ _ ∅ j [] (round_robin_classes 0 n) Hj
              (inv_initial l Hbrk) Hseeded (list_at_initial l j Hj)) as (blocks & Hl & Hlen).
  rewrite app_nil_r in Hl. exists blocks. split; [done|]. split.
  - destruct (seeded_inv _ _ _ ∅ (round_robin_classes 0 n) (inv_initial l Hbrk) Hseeded)
      as (cls & _ & _ & _ & _ & Hlists).
    destruct (Hlists j Hj) as (hd & l' & Hhd & Hl' & Hnd & _).
    destruct Hl as (hd' & Hhd' & Hl).
    assert (hd' = hd) as -> by congruence.
    by rewrite (is_list_unique _ _ _ _ Hl Hl').
  - rewrite Hlen. apply (seeded_counts_initial l n); [done | done | lia].
Qed.

Lemma seeded_lists_match_counts_witness :
  exists blocks,
    list_at demo_seeded 1 blocks /\ NoDup blocks /\
    preallocated_counts (mem_manager demo_seeded) !! Z.to_nat 1 =
      Some (Z.of_nat (length blocks)).
Proof.
  apply (seeded_lists_match_counts 5 40 demo_libc 60 demo_seeded).
  - split; simpl; unfold WORD; lia.
  - vm_compute. reflexivity.
  - unfold CHUNK_CLASSES. lia.
Defined.

Lemma sum_bytes_app l1 l2 : sum_bytes (l1 ++ l2) = sum_bytes l1 + sum_bytes l2.
Proof.
  induction l1 as [| i l1 IH]; [done|].
  rewrite <- app_comm_cons, !sum_bytes_cons, IH. lia.
Qed.

Lemma sum_bytes_round_robin_S n :
  sum_bytes (round_robin (S n)) =
  sum_bytes (round_robin n) + class_bytes (Z.of_nat n mod CHUNK_CLASSES).
Proof.
  rewrite round_robin_snoc, sum_bytes_app, sum_bytes_cons. cbn [sum_bytes foldr]. lia.
Qed.

Lemma sum_bytes_round_robin_mono n m :
  (n <= m)%nat -> sum_bytes (round_robin n) <= sum_bytes (round_robin m).
Proof.
  induction 1 as [| m _ IH]; [done|].
  rewrite sum_bytes_round_robin_S.
  pose proof (class_bytes_seeded (Z.of_nat m mod CHUNK_CLASSES)
                ltac:(by apply Z.mod_pos_bound)). lia.
Qed.

(** One full round takes 65532 bytes.  With a budget below 2^63, the seeder
    leaves at least one block in every class exactly when twice the budget
    covers a full round. *)
Theorem every_class_seeded_iff_full_round fuel B l total st' :
  libc_ok l -> 0 <= B < 2 ^ 63 ->
  preallocate_memory fuel B (initial_state l) = Done (total, st') ->
  (65532 <= 2 * B <->
   forall j, 0 <= j < CHUNK_CLASSES ->
     exists c, preallocated_counts (mem_manager st') !! Z.to_nat j = Some c /\ 1 <= c).
Proof.
  intros Hok HB Hrun.
  destruct (preallocate_memory_Done fuel B (initial_state l) total st' Hok Hrun) as (n & Hseeded & Hr & Hle & Hstop).
  assert (wrap (B * 2) = 2 * B) as Hw by (rewrite wrap_small; unfold WORD; lia).
  rewrite Hw in Hle, Hstop. subst total.
  rewrite <- sum_bytes_round_robin_S in Hstop.
  assert (forall j, 0 <= j < CHUNK_CLASSES ->
            preallocated_counts (mem_manager st') !! Z.to_nat j =
              Some (Z.of_nat n / 14 + (if j <? Z.of_nat n mod 14 then 1 else 0)))
    as Hcounts.
  { intros j Hj. rewrite (seeded_counts_initial l n st' j Hj Hseeded) by (unfold WORD; lia).
    by rewrite occurrences_round_robin. }
  assert (sum_bytes (round_robin 14) = 65532) as H14 by reflexivity.
  split.
  - intros Hfull j Hj. rewrite Hcounts by done. eexists. split; [done|].
    assert (14 <= n)%nat as Hn.
    { destruct (decide (14 <= n)%nat) as [|Hlt]; [done|].
      pose proof (sum_bytes_round_robin_mono (S n) 14 ltac:(lia)). lia. }
    destruct (j <? Z.of_nat n mod 14); Z.div_mod_to_equations; lia.
  - intros Hall. destruct (Hall 13 ltac:(unfold CHUNK_CLASSES; lia)) as (c & Hc & Hpos).
    rewrite Hcounts in Hc by (unfold CHUNK_CLASSES; lia). injection Hc as <-.
    assert (14 <= n)%nat as Hn.
    { destruct (13 <? Z.of_nat n mod 14) eqn:E; Z.div_mod_to_equations; lia. }
    pose proof (sum_bytes_round_robin_mono 14 n Hn). lia.
Qed.

Lemma every_class_seeded_iff_full_round_witness :
  65532 <= 2 * 40 <->
  forall j, 0 <= j < CHUNK_CLASSES ->
    exists c, preallocated_counts (mem_manager demo_seeded) !! Z.to_nat j = Some c /\ 1 <= c.
Proof.
  apply (every_class_seeded_iff_full_round 5 40 demo_libc 60 demo_seeded).
  - split; simpl; unfold WORD; lia.
  - lia.
  - vm_compute. reflexivity.
Defined.

(** ** Allocation and release: frames, round trips and the stack order *)

(** A sequence of calls that runs to completion leaves the counters as they
    were. *)
Lemma run_counts_frame ops : forall st evs st',
  run ops st = Done (evs, st') ->
  preallocated_counts (mem_manager st') = preallocated_counts (mem_manager st).
Proof.
  induction ops as [| o ops IH]; intros st evs st' Hrun.
  - simpl in Hrun. by injection Hrun as <- <-.
  - apply run_cons_Done in Hrun as (ev & st1 & evs' & Hstep & Hrun & ->).
    rewrite (IH _ _ _ Hrun).
    apply step_Done in Hstep as [(size & p & -> & -> & H) | (ptr & size & -> & -> & H)].
    + by apply mm_malloc_preserves_counts in H.
    + by apply mm_free_preserves_counts in H.
Qed.

(** With the list of the class empty, a request of 3 to 32768 bytes is
    served by exactly one [malloc] of the class size, which is at least the
    request; the block (or [NULL]) comes back as [malloc] gave it and the
    manager is untouched. *)
Theorem mm_malloc_falls_back_to_class_size s st :
  3 <= s <= 32768 ->
  (forall i, get_chunk_index s = Done i -> get_free_list st i = Done NULL) ->
  exists i, get_chunk_index s = Done i /\ s <= 4 * 2 ^ i /\
    mm_malloc s st = Done (call_malloc (4 * 2 ^ i) st) /\
    (call_malloc (4 * 2 ^ i) st).1 = (malloc (4 * 2 ^ i) (libc st)).1 /\
    requests (libc (call_malloc (4 * 2 ^ i) st).2) = requests (libc st) ++ [4 * 2 ^ i] /\
    mem_manager (call_malloc (4 * 2 ^ i) st).2 = mem_manager st.
Proof. apply mm_malloc_fallback. Qed.

Lemma mm_malloc_falls_back_to_class_size_witness :
  exists i, get_chunk_index 100 = Done i /\ 100 <= 4 * 2 ^ i /\
    mm_malloc 100 demo_state = Done (call_malloc (4 * 2 ^ i) demo_state) /\
    (call_malloc (4 * 2 ^ i) demo_state).1 = (malloc (4 * 2 ^ i) (libc demo_state)).1 /\
    requests (libc (call_malloc (4 * 2 ^ i) demo_state).2) =
      requests (libc demo_state) ++ [4 * 2 ^ i] /\
    mem_manager (call_malloc (4 * 2 ^ i) demo_state).2 = mem_manager demo_state.
Proof.
  apply (mm_malloc_falls_back_to_class_size 100 demo_state).
  - lia.
  - intros i H. injection H as <-. reflexivity.
Defined.

Lemma with_free_list_id st : with_free_list st (free_list (mem_manager st)) = st.
Proof. by destruct st as [[fl pc] nx lc]. Qed.

Lemma guard_passes s :
  s <> 0 -> s <= MAX_CHUNK_SIZE -> (s =? 0) || (MAX_CHUNK_SIZE <? s) = false.
Proof. intros. apply orb_false_iff. lia. Qed.

(** A pop: the head of a non-empty list is returned and its successor
    becomes the head; nothing else changes and [malloc] is not called. *)
Lemma mm_malloc_pop st s i b nxt :
  s <> 0 -> s <= MAX_CHUNK_SIZE -> get_chunk_index s = Done i ->
  get_free_list st i = Done b -> b <> NULL -> next st !! b = Some nxt ->
  mm_malloc s st =
  Done (b, with_free_list st (<[Z.to_nat i := nxt]> (free_list (mem_manager st)))).
Proof.
  intros Hs0 Hs Hi Hhd Hb Hnx. unfold mm_malloc.
  rewrite guard_passes by done. rewrite Hi. cbn [bind]. rewrite Hhd. cbn [bind].
  replace (b =? NULL) with false by lia. cbn [negb].
  unfold load_next. rewrite Hnx. cbn [bind].
  apply array_get_Done in Hhd as [Hr Hl]. apply lookup_lt_Some in Hl.
  unfold set_free_list. by rewrite array_set_in_range.
Qed.

(** A push: the block becomes the head and its link is the old head. *)
Lemma mm_free_push st p s i hd :
  p <> NULL -> s <> 0 -> s <= MAX_CHUNK_SIZE -> get_chunk_index s = Done i ->
  get_free_list st i = Done hd ->
  mm_free p s st =
  Done (with_free_list (store_next st p hd)
          (<[Z.to_nat i := p]> (free_list (mem_manager st)))).
Proof.
  intros Hp Hs0 Hs Hi Hhd. unfold mm_free.
  replace ((p =? NULL) || (s =? 0) || (MAX_CHUNK_SIZE <? s)) with false
    by (symmetry; rewrite !orb_false_iff; lia).
  rewrite Hi. cbn [bind]. rewrite Hhd. cbn [bind].
  apply array_get_Done in Hhd as [Hr Hl]. apply lookup_lt_Some in Hl.
  unfold set_free_list. cbn [store_next mem_manager].
  by rewrite array_set_in_range.
Qed.

Lemma get_free_list_with st fl i v :
  0 <= i < CHUNK_CLASSES -> fl !! Z.to_nat i = Some v ->
  get_free_list (with_free_list st fl) i = Done v.
Proof. intros Hi Hl. unfold get_free_list. by apply array_get_lookup. Qed.

Lemma pop_then_push st s s' i b nxt :
  s <> 0 -> s <= MAX_CHUNK_SIZE -> s' <> 0 -> s' <= MAX_CHUNK_SIZE ->
  get_chunk_index s = Done i -> get_chunk_index s' = Done i ->
  get_free_list st i = Done b -> b <> NULL -> next st !! b = Some nxt ->
  exists st1, mm_malloc s st = Done (b, st1) /\ libc st1 = libc st /\
              mm_free b s' st1 = Done st.
Proof.
  intros Hs0 Hs Hs0' Hs' Hi Hi' Hhd Hb Hnx.
  rewrite (mm_malloc_pop st s i b nxt) by done.
  eexists. split; [done|]. split; [done|].
  apply array_get_Done in Hhd as [Hr Hl]. pose proof (lookup_lt_Some _ _ _ Hl) as Hlen.
  rewrite (mm_free_push _ b s' i nxt); try done.
  2:{ apply get_free_list_with; [done|]. by apply list_lookup_insert_eq. }
  f_equal. destruct st as [[fl pc] nx lc]. unfold with_free_list, store_next. simpl in *.
  rewrite list_insert_insert_eq, (list_insert_id fl) by done.
  by rewrite insert_id.
Qed.

(** Round trip, pop then push: when [mm_malloc] serves a request from a
    non-empty list and the block goes straight back with a size of the same
    class, the machine is exactly in the state it started from, and libc was
    never called. *)
Theorem pop_then_push_is_identity st s s' i b nxt :
  s <> 0 -> s <= MAX_CHUNK_SIZE -> s' <> 0 -> s' <= MAX_CHUNK_SIZE ->
  get_chunk_index s = Done i -> get_chunk_index s' = Done i ->
  get_free_list st i = Done b -> b <> NULL -> next st !! b = Some nxt ->
  exists st1, mm_malloc s st = Done (b, st1) /\ libc st1 = libc st /\
              mm_free b s' st1 = Done st.
Proof. apply pop_then_push. Qed.

Lemma pop_then_push_is_identity_witness :
  exists st1, mm_malloc 7 demo_seeded = Done (4112, st1) /\
              libc st1 = libc demo_seeded /\
              mm_free 4112 8 st1 = Done demo_seeded.
Proof.
  apply (pop_then_push_is_identity demo_seeded 7 8 1 4112 0);
    try reflexivity; unfold MAX_CHUNK_SIZE, NULL; lia.
Defined.

(** Round trip, push then pop: after [mm_free] has accepted a block, the
    next [mm_malloc] of the same class returns that block without calling
    libc, and the manager (every list head and every counter) is as it was
    before the release. *)
Theorem push_then_pop_restores_manager st p s s' i st1 :
  p <> NULL -> s <> 0 -> s <= MAX_CHUNK_SIZE -> s' <> 0 -> s' <= MAX_CHUNK_SIZE ->
  get_chunk_index s = Done i -> get_chunk_index s' = Done i ->
  mm_free p s st = Done st1 ->
  exists st2, mm_malloc s' st1 = Done (p, st2) /\
              mem_manager st2 = mem_manager st /\ libc st2 = libc st.
Proof.
  intros Hp Hs0 Hs Hs0' Hs' Hi Hi' Hfree.
  apply mm_free_Done in Hfree as Hc.
  destruct Hc as [([? | [? | ?]] & _) | (_ & _ & i0 & hd & Hi0 & Hhd & _)];
    [done | done | lia |].
  assert (i0 = i) as -> by congruence.
  rewrite (mm_free_push st p s i hd) in Hfree by done. injection Hfree as <-.
  apply array_get_Done in Hhd as [Hr Hl]. pose proof (lookup_lt_Some _ _ _ Hl) as Hlen.
  rewrite (mm_malloc_pop _ s' i p hd); try done.
  - eexists. split; [done|]. split; [|done].
    destruct st as [[fl pc] nx lc]. unfold with_free_list, store_next. simpl in *.
    by rewrite list_insert_insert_eq, (list_insert_id fl).
  - apply get_free_list_with; [done|]. by apply list_lookup_insert_eq.
  - simpl. apply lookup_insert_eq.
Qed.

Lemma push_then_pop_restores_manager_witness :
  exists st2, mm_malloc 7 (state_of (mm_free 8192 8 demo_seeded)) = Done (8192, st2) /\
              mem_manager st2 = mem_manager demo_seeded /\ libc st2 = libc demo_seeded.
Proof.
  apply (push_then_pop_restores_manager demo_seeded 8192 8 7 1);
    try reflexivity; unfold MAX_CHUNK_SIZE, NULL; lia.
Defined.

Lemma run_app ops1 : forall ops2 st evs1 st1 evs2 st2,
  run ops1 st = Done (evs1, st1) -> run ops2 st1 = Done (evs2, st2) ->
  run (ops1 ++ ops2) st = Done (evs1 ++ evs2, st2).
Proof.
  induction ops1 as [| o ops1 IH]; intros ops2 st evs1 st1 evs2 st2 H1 H2.
  - simpl in H1. by injection H1 as <- <-.
  - apply run_cons_Done in H1 as (ev & st0 & evs' & Hstep & Hrun & ->).
    simpl. rewrite Hstep. cbn [bind]. simpl.
    by rewrite (IH ops2 st0 evs' st1 evs2 st2 Hrun H2).
Qed.

Lemma is_seg_insert_fresh nx p v l : forall hd tl,
  p ∉ l -> is_seg nx hd l tl -> is_seg (<[p := v]> nx) hd l tl.
Proof.
  induction l as [| b l IH]; intros hd tl Hp H; [done|].
  destruct H as (-> & Hb & q & Hq & Hl).
  apply not_elem_of_cons in Hp as [Hpb Hpl].
  split; [done|]. split; [done|]. exists q.
  rewrite lookup_insert_ne by done. eauto.
Qed.

(** Releasing the distinct blocks [ps] stacks them on the list, last
    released on top. *)
Lemma run_releases s i tl ps : forall st hd l,
  s <> 0 -> s <= MAX_CHUNK_SIZE -> get_chunk_index s = Done i ->
  Forall (fun p => p <> NULL) ps -> NoDup (ps ++ l) ->
  get_free_list st i = Done hd -> is_seg (next st) hd l tl ->
  exists hd' nx',
    run (map (fun p => Release p s) ps) st =
      Done (map (fun p => Released p s) ps,
            {| mem_manager := mem_manager (with_free_list st
                 (<[Z.to_nat i := hd']> (free_list (mem_manager st))));
               next := nx'; libc := libc st |}) /\
    is_seg nx' hd' (rev ps ++ l) tl.
Proof.
  induction ps as [| p ps IH]; intros st hd l Hs0 Hs Hi Hnn Hnd Hhd Hseg.
  - exists hd, (next st). simpl.
    apply array_get_Done in Hhd as Hl. destruct Hl as [_ Hl].
    rewrite list_insert_id by done. split; [|done].
    by destruct st as [[fl pc] nx lc].
  - inversion Hnn as [| ? ? Hp Hnn']; subst.
    simpl in Hnd. apply NoDup_cons in Hnd as [Hpl Hnd].
    apply not_elem_of_app in Hpl as [Hpps Hpl].
    pose proof (mm_free_push st p s i hd Hp Hs0 Hs Hi Hhd) as Hfree.
    apply array_get_Done in Hhd as Hl. destruct Hl as [Hr Hl].
    pose proof (lookup_lt_Some _ _ _ Hl) as Hlen.
    set (st1 := with_free_list (store_next st p hd)
                  (<[Z.to_nat i := p]> (free_list (mem_manager st)))) in *.
    destruct (IH st1 p (p :: l) Hs0 Hs Hi Hnn') as (hd' & nx' & Hrun & Hseg').
    + apply NoDup_app. apply NoDup_app in Hnd as (Hn1 & Hn2 & Hn3).
      split; [done|]. split.
      * intros x Hx Hin. apply elem_of_cons in Hin as [-> | Hin]; [done|]. by apply (Hn2 x).
      * by apply NoDup_cons.
    + apply get_free_list_with; [done|]. by apply list_lookup_insert_eq.
    + split; [done|]. split; [done|]. exists hd. simpl. rewrite lookup_insert_eq.
      split; [done|]. by apply is_seg_insert_fresh.
    + exists hd', nx'. cbn [map run]. unfold step. rewrite Hfree. cbn [bind]. simpl.
      rewrite Hrun. cbn [bind]. simpl. split.
      * do 3 f_equal. unfold st1, with_free_list. simpl.
        by rewrite list_insert_insert_eq.
      * by rewrite <- app_assoc.
Qed.

(** Allocating as many times as the list is long pops its blocks in list
    order. *)
Lemma run_allocates s i tl l : forall st hd,
  s <> 0 -> s <= MAX_CHUNK_SIZE -> get_chunk_index s = Done i ->
  get_free_list st i = Done hd -> is_seg (next st) hd l tl ->
  run (replicate (length l) (Allocate s)) st =
    Done (map (fun p => Allocated s p) l,
          with_free_list st (<[Z.to_nat i := tl]> (free_list (mem_manager st)))).
Proof.
  induction l as [| b l IH]; intros st hd Hs0 Hs Hi Hhd Hseg.
  - simpl in *. subst. apply array_get_Done in Hhd as [_ Hl].
    rewrite list_insert_id by done. by rewrite with_free_list_id.
  - destruct Hseg as (-> & Hb & q & Hq & Hseg).
    pose proof (mm_malloc_pop st s i b q Hs0 Hs Hi Hhd Hb Hq) as Hpop.
    apply array_get_Done in Hhd as [Hr Hl]. pose proof (lookup_lt_Some _ _ _ Hl) as Hlen.
    cbn [length replicate run map]. unfold step. rewrite Hpop. cbn [bind]. simpl.
    rewrite (IH _ q); try done.
    + cbn [bind]. simpl. do 3 f_equal. unfold with_free_list. simpl.
      by rewrite list_insert_insert_eq.
    + apply get_free_list_with; [done|]. by apply list_lookup_insert_eq.
Qed.

(** Stack discipline: when distinct non-null blocks are released with a size
    of one class and as many allocations of that size follow, the blocks come
    back in the reverse order of their release, libc is never called, and
    the manager ends as it began. *)
Theorem released_blocks_come_back_in_reverse st s ps :
  wf_state st -> 3 <= s <= 32768 ->
  Forall (fun p => p <> NULL) ps -> NoDup ps ->
  exists st',
    run (map (fun p => Release p s) ps ++ replicate (length ps) (Allocate s)) st =
      Done (map (fun p => Released p s) ps ++ map (fun p => Allocated s p) (rev ps), st') /\
    mem_manager st' = mem_manager st /\ libc st' = libc st.
Proof.
  intros Hwf Hs Hnn Hnd.
  destruct (get_chunk_index_below_top s Hs) as (i & Hi & Hr).
  destruct (wf_state_lookups st i Hwf Hr) as (hd & _ & Hl & _).
  pose proof (array_get_lookup _ _ i hd Hr Hl) as Hhd. fold (get_free_list st i) in Hhd.
  assert (s <> 0 /\ s <= MAX_CHUNK_SIZE) as [Hs0 Hsm] by (unfold MAX_CHUNK_SIZE; lia).
  destruct (run_releases s i hd ps st hd [] Hs0 Hsm Hi Hnn) as (hd' & nx' & Hrun1 & Hseg);
    [by rewrite app_nil_r | done | done |].
  rewrite app_nil_r in Hseg.
  pose proof (lookup_lt_Some _ _ _ Hl) as Hlen.
  eexists. split.
  - eapply run_app; [exact Hrun1|].
    rewrite <- (length_rev ps).
    apply (run_allocates s i hd (rev ps) _ hd'); try done.
    unfold get_free_list. simpl. apply array_get_lookup; [done|].
    by apply list_lookup_insert_eq.
  - unfold with_free_list. simpl.
    rewrite list_insert_insert_eq, list_insert_id by done.
    split; [|done]. by destruct st as [[fl pc] nx lc].
Qed.

Lemma released_blocks_come_back_in_reverse_witness :
  exists st',
    run (map (fun p => Release p 64) [8192; 8256; 8320]
         ++ replicate 3 (Allocate 64)) demo_seeded =
      Done (map (fun p => Released p 64) [8192; 8256; 8320]
            ++ map (fun p => Allocated 64 p) [8320; 8256; 8192], st') /\
    mem_manager st' = mem_manager demo_seeded /\ libc st' = libc demo_seeded.
Proof.
  apply (released_blocks_come_back_in_reverse demo_seeded 64 [8192; 8256; 8320]).
  - split; reflexivity.
  - lia.
  - repeat constructor; unfold NULL; lia.
  - apply NoDup_ListNoDup. repeat constructor; simpl; intuition lia.
Defined.

(** ** Under the protocol: no block handed out twice *)

Lemma follows_protocol_cons held ev rest :
  follows_protocol held (ev :: rest) = true ->
  follows_protocol (held_step held ev) rest = true.
Proof.
  destruct ev as [size ptr | ptr size]; cbn [follows_protocol held_step].
  - destruct (ptr =? NULL); [done|]. by destruct (class_of size).
  - destruct ((ptr =? NULL) || (size =? 0) || (MAX_CHUNK_SIZE <? size)); [done|].
    destruct (class_of size); [|done]. destruct (held !! ptr); [|done].
    intros H. by apply andb_true_iff in H as [_ H].
Qed.

(** A block that [mm_malloc] returns is not in the hands of the caller. *)
Lemma mm_malloc_not_held st held cls size p st' :
  inv st held cls -> mm_malloc size st = Done (p, st') -> p <> NULL ->
  held !! p = None.
Proof.
  intros (Hwf & Hbrk & Hknown & Hheld & Hok) H Hp.
  apply mm_malloc_Done in H as [(_ & -> & _) | (_ & index & head & Hi & Hhead & H)];
    [done|].
  apply array_get_Done in Hhead as [Hr Hhead].
  destruct H as [(Hnn & -> & nxt & Hnxt & H) | (-> & sz & Hsz & H)].
  - by destruct (lists_pop _ _ _ _ index head nxt Hok Hr Hhead Hnn Hnxt) as (_ & Hfree & _).
  - apply call_malloc_eq in H as (_ & _ & Hm).
    apply malloc_cases in Hm as (_ & _ & [(-> & _) | (-> & _)]); [|done].
    destruct (held !! brk (libc st)) as [c|] eqn:E; [|done].
    apply Hheld, Hknown in E. lia.
Qed.

(** One call under the protocol keeps the invariant, with the caller's
    blocks updated by [held_step]. *)
Lemma step_inv st held cls o ev st1 rest :
  inv st held cls -> step o st = Done (ev, st1) ->
  follows_protocol held (ev :: rest) = true ->
  exists cls1, inv st1 (held_step held ev) cls1.
Proof.
  intros Hinv Hstep Hprot.
  apply step_Done in Hstep as [(size & p & -> & -> & H) | (ptr & size & -> & -> & H)];
    cbn [follows_protocol held_step] in *.
  - destruct (mm_malloc_inv _ _ _ _ _ _ Hinv H)
      as [(-> & Hinv1) | (Hp & c & cls1 & Hc & _ & _ & Hinv1)].
    + change (NULL =? NULL) with true. eauto.
    + replace (p =? NULL) with false by lia. rewrite Hc. eauto.
  - destruct ((ptr =? NULL) || (size =? 0) || (MAX_CHUNK_SIZE <? size)) eqn:G.
    + rewrite mm_free_guard in H by (rewrite !orb_true_iff in G; lia).
      injection H as <-. eauto.
    + rewrite !orb_false_iff in G.
      destruct (class_of size) as [c|] eqn:Hc; [|done].
      destruct (held !! ptr) as [c'|] eqn:Hh; [|done].
      apply andb_true_iff in Hprot as [Hcc _].
      assert (c' = c) as -> by lia.
      exists cls. apply (mm_free_inv st held cls ptr size st1 c); try done;
        unfold NULL in *; lia.
Qed.

Lemma run_inv ops : forall st held cls evs st',
  inv st held cls -> run ops st = Done (evs, st') ->
  follows_protocol held evs = true ->
  exists cls', inv st' (held_after held evs) cls'.
Proof.
  induction ops as [| o ops IH]; intros st held cls evs st' Hinv Hrun Hprot.
  - simpl in Hrun. injection Hrun as <- <-. eauto.
  - apply run_cons_Done in Hrun as (ev & st1 & evs' & Hstep & Hrun & ->).
    destruct (step_inv _ _ _ _ _ _ _ Hinv Hstep Hprot) as (cls1 & Hinv1).
    apply follows_protocol_cons in Hprot.
    apply (IH st1 (held_step held ev) cls1 evs' st' Hinv1 Hrun Hprot).
Qed.

Lemma seeded_state_inv fuel B l total st0 :
  libc_ok l -> preallocate_memory fuel B (initial_state l) = Done (total, st0) ->
  exists cls, inv st0 ∅ cls.
Proof.
  intros Hok Hseed.
  destruct (preallocate_memory_Done fuel B (initial_state l) total st0 Hok Hseed)
    as (n & Hseeded & _).
  destruct Hok as [Hbrk _].
  apply (seeded_inv _ _ _ ∅ (round_robin_classes 0 n) (inv_initial l Hbrk) Hseeded).
Qed.

(** When [mm_malloc] returns a block, the caller does not hold it at that
    moment. *)
Lemma allocation_not_held ops : forall st held cls evs st' k s p,
  inv st held cls -> run ops st = Done (evs, st') ->
  follows_protocol held evs = true ->
  evs !! k = Some (Allocated s p) -> p <> NULL ->
  held_after held (take k evs) !! p = None.
Proof.
  induction ops as [| o ops IH]; intros st held cls evs st' k s p Hinv Hrun Hprot Hk Hp.
  - simpl in Hrun. injection Hrun as <- <-. done.
  - apply run_cons_Done in Hrun as (ev & st1 & evs' & Hstep & Hrun & ->).
    destruct k as [| k].
    + simpl in Hk. injection Hk as ->. simpl.
      apply step_Done in Hstep as [(size & q & _ & [= <- <-] & H) | (? & ? & _ & [=] & _)].
      by apply (mm_malloc_not_held st held cls s p st1).
    + destruct (step_inv _ _ _ _ _ _ _ Hinv Hstep Hprot) as (cls1 & Hinv1).
      apply follows_protocol_cons in Hprot. simpl in Hk. cbn [take].
      unfold held_after. cbn [foldl].
      by apply (IH st1 (held_step held ev) cls1 evs' st' k s p).
Qed.

(** A block leaves the hands of the caller only through an accepted
    release. *)
Lemma held_until_released evs : forall held p c,
  held !! p = Some c -> held_after held evs !! p = None ->
  exists k s, evs !! k = Some (Released p s) /\ s <> 0 /\ s <= MAX_CHUNK_SIZE.
Proof.
  induction evs as [| ev evs IH]; intros held p c Hh Hafter.
  - unfold held_after in Hafter. simpl in Hafter. congruence.
  - unfold held_after in Hafter. cbn [foldl] in Hafter.
    destruct (held_step held ev !! p) as [c'|] eqn:E.
    + destruct (IH _ p c' E Hafter) as (k & s & Hk & Hs).
      by exists (S k), s.
    + destruct ev as [size q | q size]; cbn [held_step] in E.
      * destruct (q =? NULL); [congruence|].
        destruct (class_of size); [|congruence].
        destruct (decide (q = p)) as [-> | Hne].
        -- by rewrite lookup_insert_eq in E.
        -- rewrite lookup_insert_ne in E by done. congruence.
      * destruct ((q =? NULL) || (size =? 0) || (MAX_CHUNK_SIZE <? size)) eqn:G;
          [congruence|].
        rewrite !orb_false_iff in G.
        destruct (decide (q = p)) as [-> | Hne].
        -- exists 0%nat, size. split; [done | lia].
        -- rewrite lookup_delete_ne in E by done. congruence.
Qed.

(** No block is handed out twice: after seeding from the initial state, in
    every run that follows the protocol, two allocations that return the same
    block have between them a release of that block that [mm_free]
    accepted. *)
Theorem no_block_handed_out_twice B fuel l total st0 ops evs st' :
  libc_ok l ->
  preallocate_memory fuel B (initial_state l) = Done (total, st0) ->
  run ops st0 = Done (evs, st') ->
  follows_protocol ∅ evs = true ->
  forall k1 k2 s1 s2 p,
    (k1 < k2)%nat -> p <> NULL ->
    evs !! k1 = Some (Allocated s1 p) -> evs !! k2 = Some (Allocated s2 p) ->
    exists k s, (k1 < k < k2)%nat /\ evs !! k = Some (Released p s) /\
                s <> 0 /\ s <= MAX_CHUNK_SIZE.
Proof.
  intros Hok Hseed Hrun Hprot k1 k2 s1 s2 p Hlt Hp H1 H2.
  destruct (seeded_state_inv _ _ _ _ _ Hok Hseed) as (cls0 & Hinv0).
  pose proof (allocation_not_held ops st0 ∅ cls0 evs st' k2 s2 p Hinv0 Hrun Hprot H2 Hp)
    as Hfree.
  destruct (seeded_state_inv _ _ _ _ _ Hok Hseed) as (cls & Hinv).
  destruct (run_keeps_classes ops st0 ∅ cls evs st' Hinv Hrun Hprot)
    as (cls' & _ & _ & Hall).
  destruct (Hall p s1) as (c & Hc & _); [by eapply list_elem_of_lookup_2 | done |].
  assert (take k2 evs = take (S k1) evs ++ drop (S k1) (take k2 evs)) as Hsplit.
  { rewrite <- (take_drop (S k1) (take k2 evs)) at 1. f_equal.
    rewrite take_take. f_equal. lia. }
  rewrite Hsplit in Hfree. unfold held_after in Hfree. rewrite foldl_app in Hfree.
  rewrite (take_S_r _ _ _ H1), foldl_app in Hfree. cbn [foldl] in Hfree.
  set (h := foldl held_step ∅ (take k1 evs)) in *.
  assert (held_step h (Allocated s1 p) !! p = Some c) as Hheld.
  { cbn [held_step]. replace (p =? NULL) with false by lia. rewrite Hc.
    apply lookup_insert_eq. }
  destruct (held_until_released _ _ p c Hheld Hfree) as (k & s & Hk & Hs).
  rewrite lookup_drop in Hk.
  destruct (decide (S k1 + k < k2)%nat) as [Hin | Hout].
  - rewrite lookup_take_lt in Hk by done.
    exists (S k1 + k)%nat, s. split; [lia | done].
  - rewrite lookup_take_ge in Hk by lia. done.
Qed.

Lemma no_block_handed_out_twice_witness :
  exists k s, (0 < k < 2)%nat /\
    value_after [] (run demo_ops demo_seeded) !! k = Some (Released 4112 s) /\
    s <> 0 /\ s <= MAX_CHUNK_SIZE.
Proof.
  apply (no_block_handed_out_twice 40 5 demo_libc 60 demo_seeded demo_ops
           (value_after [] (run demo_ops demo_seeded))
           (state_after (run demo_ops demo_seeded))
           ltac:(split; simpl; unfold WORD; lia)
           ltac:(vm_compute; reflexivity) ltac:(vm_compute; reflexivity)
           ltac:(vm_compute; reflexivity) 0%nat 2%nat 8 7 4112).
  - lia.
  - unfold NULL. lia.
  - reflexivity.
  - reflexivity.
Defined.

(** ** The workload generator *)

Lemma sum_app (l1 l2 : list Z) :
  foldr Z.add 0 (l1 ++ l2) = foldr Z.add 0 l1 + foldr Z.add 0 l2.
Proof. induction l1 as [| x l1 IH]; simpl; lia. Qed.

(** The loop invariant of the generator: [n] sizes were written at the front
    of the buffer, each a seeded size, and [used_memory] is at most the
    budget (and is their sum when the budget leaves room for one more chunk
    below the width of [size_t]). *)
Lemma generate_loop_spec rand total max_count cap fuel :
  forall calls n used sizes counts,
  Z.of_nat cap = max_count -> max_count < WORD ->
  length sizes = cap -> length counts = Z.to_nat CHUNK_CLASSES ->
  (n <= cap)%nat -> (cap - n < fuel)%nat ->
  Forall seeded_size (take n sizes) ->
  0 <= used -> (used <= total \/ n = 0%nat) ->
  (total + 32768 < WORD -> foldr Z.add 0 (take n sizes) = used) ->
  exists n' sizes' counts',
    generate_loop fuel rand total max_count calls (Z.of_nat n) used sizes counts =
      Done (Z.of_nat n', sizes', counts') /\
    (n <= n' <= cap)%nat /\ length sizes' = cap /\
    Forall seeded_size (take n' sizes') /\
    (total + 32768 < WORD -> foldr Z.add 0 (take n' sizes') <= total \/ n' = 0%nat).
Proof.
  induction fuel as [| fuel IH];
    intros calls n used sizes counts Hcap Hmax Hlen Hclen Hn Hfuel Hall Hused Hle Hsum;
    [lia|].
  cbn [generate_loop].
  destruct ((used <? total) && (Z.of_nat n <? max_count)) eqn:Hcond.
  2:{ exists n, sizes, counts. split; [done|]. split; [lia|]. split; [done|].
      split; [done|]. intros Hroom. rewrite (Hsum Hroom). lia. }
  apply andb_true_iff in Hcond as [Hlt Hnum].
  set (i := Z.of_nat (rand calls) mod CHUNK_CLASSES).
  assert (0 <= i < CHUNK_CLASSES) as Hi by (by apply Z.mod_pos_bound).
  rewrite (chunk_size_in_range i) by (unfold CHUNK_CLASSES in Hi; lia). cbn [bind].
  pose proof (class_bytes_seeded i Hi) as Hcb. unfold class_bytes, MIN_CHUNK_SIZE in Hcb.
  destruct (total <? wrap (used + 4 * 2 ^ i)) eqn:Hbreak.
  { exists n, sizes, counts. split; [done|]. split; [lia|]. split; [done|].
    split; [done|]. intros Hroom. rewrite (Hsum Hroom). lia. }
  rewrite array_set_in_range by lia. cbn [bind].
  destruct (lookup_lt_is_Some_2 counts (Z.to_nat i)) as [c Hc]; [lia|].
  rewrite (array_get_lookup _ _ i c) by done. cbn [bind].
  rewrite array_set_in_range by (done || lia). cbn [bind].
  rewrite Nat2Z.id.
  assert (wrap (Z.of_nat n + 1) = Z.of_nat (S n)) as -> by (rewrite wrap_small; lia).
  assert (take (S n) (<[n := 4 * 2 ^ i]> sizes) = take n sizes ++ [4 * 2 ^ i]) as Htake.
  { rewrite (take_S_r _ _ (4 * 2 ^ i)) by (apply list_lookup_insert_eq; lia).
    by rewrite take_insert_ge. }
  pose proof (wrap_range (used + 4 * 2 ^ i)) as Hwr.
  destruct (IH (S calls) (S n) (wrap (used + 4 * 2 ^ i)) (<[n := 4 * 2 ^ i]> sizes)
              (<[Z.to_nat i := wrap (c + 1)]> counts))
    as (n' & sizes' & counts' & Hrun & Hn' & Hlen' & Hall' & Hsum');
    try done; try lia.
  - by rewrite length_insert.
  - by rewrite length_insert.
  - rewrite Htake. apply Forall_app. split; [done|]. constructor; [|done]. by exists i.
  - intros Hroom. rewrite Htake, sum_app, (Hsum Hroom). simpl.
    rewrite wrap_small; lia.
  - exists n', sizes', counts'. split; [done|]. split; [lia|]. split; [done|].
    split; [done|]. intros Hroom. destruct (Hsum' Hroom) as [? | ?]; [by left | lia].
Qed.

(** [generate_random_sizes] keeps inside the buffers it is given and ends
    within [max_count] iterations: it returns a count that is at most
    [max_count], and each of the sizes it wrote is one of the sizes
    4, 8, ..., 32768 that the seeder stocks, never 65536. *)
Theorem generate_random_sizes_stays_in_classes rand total_size sizes max_count counts fuel :
  0 <= max_count < WORD ->
  length sizes = Z.to_nat max_count -> length counts = Z.to_nat CHUNK_CLASSES ->
  (Z.to_nat max_count < fuel)%nat ->
  exists n sizes' counts',
    generate_random_sizes fuel rand total_size sizes max_count counts =
      Done (Z.of_nat n, sizes', counts') /\
    Z.of_nat n <= max_count /\ length sizes' = length sizes /\
    Forall seeded_size (take n sizes').
Proof.
  intros Hmax Hlen Hclen Hfuel. unfold generate_random_sizes.
  destruct (generate_loop_spec rand total_size max_count (Z.to_nat max_count) fuel
              0%nat 0%nat 0 sizes counts)
    as (n & sizes' & counts' & Hrun & Hn & Hlen' & Hall & _);
    try done; try lia.
  exists n, sizes', counts'. split; [done|]. split; [lia|]. split; [congruence | done].
Qed.

Lemma generate_random_sizes_stays_in_classes_witness :
  exists n sizes' counts',
    generate_random_sizes 4 demo_rand 100 [0; 0; 0] 3 (replicate 14 0) =
      Done (Z.of_nat n, sizes', counts') /\
    Z.of_nat n <= 3 /\ length sizes' = length [0; 0; 0] /\
    Forall seeded_size (take n sizes').
Proof.
  apply (generate_random_sizes_stays_in_classes demo_rand 100 [0; 0; 0] 3 (replicate 14 0) 4).
  - unfold WORD. lia.
  - reflexivity.
  - reflexivity.
  - simpl. lia.
Defined.

(** The sizes generated never add up to more than the budget, as long as the
    budget is at least 32768 bytes below the width of [size_t]. *)
Theorem generate_random_sizes_within_budget rand total_size sizes max_count counts fuel
    num sizes' counts' :
  0 <= max_count < WORD -> 0 <= total_size -> total_size + 32768 < WORD ->
  length sizes = Z.to_nat max_count -> length counts = Z.to_nat CHUNK_CLASSES ->
  (Z.to_nat max_count < fuel)%nat ->
  generate_random_sizes fuel rand total_size sizes max_count counts =
    Done (num, sizes', counts') ->
  foldr Z.add 0 (take (Z.to_nat num) sizes') <= total_size.
Proof.
  intros Hmax Htot Hroom Hlen Hclen Hfuel Hrun. unfold generate_random_sizes in Hrun.
  destruct (generate_loop_spec rand total_size max_count (Z.to_nat max_count) fuel
              0%nat 0%nat 0 sizes counts)
    as (n & sizes1 & counts1 & Hrun1 & Hn & Hlen' & Hall & Hsum);
    try done; try lia.
  change (Z.of_nat 0) with 0 in Hrun1. rewrite Hrun in Hrun1.
  injection Hrun1 as -> <- <-. rewrite Nat2Z.id.
  destruct (Hsum Hroom) as [? | ->]; [done | simpl; lia].
Qed.

Lemma generate_random_sizes_within_budget_witness :
  foldr Z.add 0 (take (Z.to_nat 2) [8; 64; 0]) <= 100.
Proof.
  apply (generate_random_sizes_within_budget demo_rand 100 [0; 0; 0] 3 (replicate 14 0) 4
           2 [8; 64; 0] [0; 1; 0; 0; 1; 0; 0; 0; 0; 0; 0; 0; 0; 0]).
  - unfold WORD. lia.
  - lia.
  - unfold WORD. lia.
  - reflexivity.
  - reflexivity.
  - simpl. lia.
  - vm_compute. reflexivity.
Defined.

(** ** The timed phase of [benchmark] *)

Lemma seeded_size_range s : seeded_size s -> 3 <= s <= 32768.
Proof.
  intros (i & Hi & ->). pose proof (class_bytes_seeded i Hi) as H.
  unfold class_bytes, MIN_CHUNK_SIZE in H. lia.
Qed.

Lemma alloc_all_run sizes : forall st ptrs st1,
  alloc_all sizes st = Done (ptrs, st1) ->
  length ptrs = length sizes /\
  run (map Allocate sizes) st = Done (zip_with Allocated sizes ptrs, st1).
Proof.
  induction sizes as [| s sizes IH]; intros st ptrs st1 H; simpl in H.
  - by injection H as <- <-.
  - inv_bind H. destruct x as [p st0]. inv_bind H. destruct x as [ptrs' st2].
    injection H as <- <-. simpl in *.
    destruct (IH _ _ _ Hx0) as [Hlen Hrun].
    rewrite Hx. cbn [bind]. simpl. rewrite Hrun. cbn [bind]. simpl.
    split; [by rewrite Hlen | done].
Qed.

Lemma free_all_run ptrs : forall sizes st st2,
  length ptrs = length sizes ->
  free_all ptrs sizes st = Done st2 ->
  run (zip_with Release ptrs sizes) st = Done (zip_with Released ptrs sizes, st2).
Proof.
  induction ptrs as [| p ptrs IH]; intros [| s sizes] st st2 Hlen H; simpl in *;
    try discriminate.
  - by injection H as <-.
  - inv_bind H. rewrite Hx. cbn [bind]. simpl.
    rewrite (IH sizes x st2) by (done || lia). done.
Qed.

(** Releases of other blocks are as acceptable without [p] in the hands of
    the caller, and they leave [p] where it is. *)
Lemma releases_without ptrs : forall sizes held p,
  p ∉ filter (fun q => q <> NULL) ptrs ->
  follows_protocol held (zip_with Released ptrs sizes) = true ->
  follows_protocol (delete p held) (zip_with Released ptrs sizes) = true /\
  held_after (delete p held) (zip_with Released ptrs sizes) =
    delete p (held_after held (zip_with Released ptrs sizes)).
Proof.
  induction ptrs as [| q ptrs IH]; intros [| s sizes] held p Hp H; try done.
  cbn [zip_with follows_protocol] in *. unfold held_after. cbn [foldl held_step].
  fold (held_after (delete p held)). 
  destruct ((q =? NULL) || (s =? 0) || (MAX_CHUNK_SIZE <? s)) eqn:G.
  - apply IH; [|done]. intros Hin. apply Hp.
    rewrite filter_cons. destruct (decide (q <> NULL)); [by right | done].
  - rewrite !orb_false_iff in G.
    assert (q <> NULL) as Hq by lia.
    rewrite filter_cons_True in Hp by done.
    apply not_elem_of_cons in Hp as [Hpq Hp].
    destruct (class_of s) as [c|] eqn:Hc; [|done].
    rewrite lookup_delete_ne by done.
    destruct (held !! q) as [c'|] eqn:Hh; [|done].
    apply andb_true_iff in H as [Hcc H]. rewrite Hcc. cbn [andb].
    rewrite (delete_delete held q p). by apply IH.
Qed.

Lemma seeded_size_class s : seeded_size s -> exists c, class_of s = Some c.
Proof.
  intros Hs. apply seeded_size_range in Hs.
  destruct (get_chunk_index_below_top s Hs) as (i & Hi & _).
  exists i. by apply class_of_Done.
Qed.

(** The allocations of the first loop: they run to completion; the blocks
    they return are new to the caller, and the releases of the second loop, taken in the
    same order, are what the protocol asks for and give every block back. *)
Lemma alloc_all_spec sizes : forall st held cls,
  inv st held cls -> Forall seeded_size sizes ->
  exists ptrs st1 cls1 held1,
    alloc_all sizes st = Done (ptrs, st1) /\
    inv st1 held1 cls1 /\
    held1 = held_after held (zip_with Allocated sizes ptrs) /\
    (forall rest, follows_protocol held (zip_with Allocated sizes ptrs ++ rest) =
                  follows_protocol held1 rest) /\
    (forall q, q ∈ filter (fun q => q <> NULL) ptrs -> held !! q = None) /\
    follows_protocol held1 (zip_with Released ptrs sizes) = true /\
    held_after held1 (zip_with Released ptrs sizes) = held.
Proof.
  induction sizes as [| s sizes IH]; intros st held cls Hinv Hall.
  - exists [], st, cls, held. simpl. do 4 (split; [done|]). split; [|done].
    intros q Hq. by apply elem_of_nil in Hq.
  - inversion Hall as [| ? ? Hs Hall']; subst.
    destruct (mm_malloc_defined st held cls s Hinv (seeded_size_range s Hs))
      as (p & st0 & Hm).
    destruct (seeded_size_class s Hs) as (c & Hc).
    assert (exists cls0, inv st0 (held_step held (Allocated s p)) cls0 /\
                         (p <> NULL -> held !! p = None)) as (cls0 & Hinv0 & Hnew).
    { destruct (mm_malloc_inv _ _ _ _ _ _ Hinv Hm)
        as [(-> & Hinv1) | (Hp & c' & cls1 & Hc' & _ & _ & Hinv1)].
      - exists cls. split; [done|]. done.
      - exists cls1. cbn [held_step]. replace (p =? NULL) with false by lia.
        rewrite Hc'. split; [done|]. intros _.
        by apply (mm_malloc_not_held st held cls s p st0). }
    destruct (IH st0 _ cls0 Hinv0 Hall')
      as (ptrs & st1 & cls1 & held1 & Hrun & Hinv1 & Hh1 & Hallocs & Hfresh & Hrel & Hback).
    exists (p :: ptrs), st1, cls1, held1.
    cbn [alloc_all]. rewrite Hm. cbn [bind]. simpl. rewrite Hrun. cbn [bind]. simpl.
    split; [done|]. split; [done|]. split; [done|]. split.
    { intros rest. rewrite <- Hallocs. cbn [follows_protocol held_step].
      destruct (p =? NULL); [done|]. by rewrite Hc. }
    cbn [held_step] in *. destruct (p =? NULL) eqn:Hp.
    + assert (p = NULL) as -> by lia. split.
      { intros q Hq. rewrite filter_cons_False in Hq by (intros H; by apply H). eauto. }
      unfold held_after. cbn [follows_protocol foldl held_step].
      change (NULL =? NULL) with true. cbn [orb]. done.
    + assert (p <> NULL) as Hpn by lia. rewrite Hc in *.
      assert (p ∉ filter (fun q => q <> NULL) ptrs) as Hnotin.
      { intros Hin. apply Hfresh in Hin. by rewrite lookup_insert_eq in Hin. }
      split.
      { intros q Hq. rewrite filter_cons_True in Hq by done.
        apply elem_of_cons in Hq as [-> | Hq]; [by apply Hnew|].
        pose proof (Hfresh q Hq) as Hq'.
        destruct (decide (q = p)) as [-> | Hne]; [by rewrite lookup_insert_eq in Hq'|].
        by rewrite lookup_insert_ne in Hq'. }
      assert (held1 !! p = Some c) as Hheld1.
      { assert (delete p held1 !! p = None) as _ by apply lookup_delete_eq.
        destruct (held1 !! p) as [c'|] eqn:E.
        - assert (held_after held1 (zip_with Released ptrs sizes) !! p = Some c) as Hfin
            by (rewrite Hback; apply lookup_insert_eq).
          clear -E Hfin Hnotin Hrel.
          revert sizes held1 E Hfin Hnotin Hrel.
          induction ptrs as [| q ptrs IHp]; intros [| s' sizes] held1 E Hfin Hnotin Hrel;
            try (unfold held_after in Hfin; simpl in Hfin; congruence).
          unfold held_after in Hfin. cbn [zip_with foldl held_step follows_protocol] in *.
          destruct ((q =? NULL) || (s' =? 0) || (MAX_CHUNK_SIZE <? s')) eqn:G.
          + apply (IHp sizes held1); try done. intros Hin. apply Hnotin.
            rewrite filter_cons. destruct (decide (q <> NULL)); [by right | done].
          + rewrite !orb_false_iff in G. assert (q <> NULL) as Hq by lia.
            rewrite filter_cons_True in Hnotin by done.
            apply not_elem_of_cons in Hnotin as [Hpq Hnotin].
            destruct (class_of s'); [|done]. destruct (held1 !! q); [|done].
            apply andb_true_iff in Hrel as [_ Hrel].
            apply (IHp sizes (delete q held1)); try done.
            by rewrite lookup_delete_ne.
        - exfalso.
          assert (held_after held1 (zip_with Released ptrs sizes) !! p = None) as Hfin.
          { clear -E. revert sizes held1 E.
            induction ptrs as [| q ptrs IHp]; intros [| s' sizes] held1 E; try done.
            unfold held_after. cbn [zip_with foldl held_step].
            destruct ((q =? NULL) || (s' =? 0) || (MAX_CHUNK_SIZE <? s')).
            - by apply IHp.
            - apply IHp. destruct (decide (q = p)) as [-> | Hne].
              + apply lookup_delete_eq.
              + by rewrite lookup_delete_ne. }
          rewrite Hback, lookup_insert_eq in Hfin. done. }
      destruct (releases_without ptrs sizes held1 p Hnotin Hrel) as [Hrel' Hafter'].
      unfold held_after. cbn [zip_with follows_protocol foldl held_step].
      replace (false || (s =? 0) || (MAX_CHUNK_SIZE <? s)) with false.
      2:{ symmetry. rewrite !orb_false_iff. apply seeded_size_range in Hs.
          unfold MAX_CHUNK_SIZE. lia. }
      rewrite Hheld1, Z.eqb_refl. cbn [andb]. split; [done|].
      fold (held_after (delete p held1) (zip_with Released ptrs sizes)).
      rewrite Hafter', Hback. apply delete_insert_id. by apply Hnew.
Qed.

(** The releases of the second loop, when the protocol accepts them, run to
    completion and keep the invariant. *)
Lemma free_all_spec ptrs : forall sizes st held cls,
  inv st held cls -> Forall seeded_size sizes -> length ptrs = length sizes ->
  follows_protocol held (zip_with Released ptrs sizes) = true ->
  exists st2 cls2,
    free_all ptrs sizes st = Done st2 /\
    inv st2 (held_after held (zip_with Released ptrs sizes)) cls2.
Proof.
  induction ptrs as [| p ptrs IH]; intros [| s sizes] st held cls Hinv Hall Hlen Hprot;
    try discriminate.
  - exists st, cls. done.
  - inversion Hall as [| ? ? Hs Hall']; subst.
    destruct (mm_free_defined st p s ltac:(by destruct Hinv) (seeded_size_range s Hs))
      as (st1 & Hfree).
    cbn [zip_with] in Hprot.
    destruct (step_inv st held cls (Release p s) (Released p s) st1
                (zip_with Released ptrs sizes) Hinv) as (cls1 & Hinv1);
      [simpl; by rewrite Hfree | exact Hprot |].
    apply follows_protocol_cons in Hprot.
    destruct (IH sizes st1 _ cls1 Hinv1 Hall' ltac:(simpl in Hlen; lia) Hprot)
      as (st2 & cls2 & Hrun & Hinv2).
    exists st2, cls2. cbn [free_all]. rewrite Hfree. cbn [bind]. done.
Qed.

(** The timed phase of [benchmark] on a seeded state, for sizes as
    [generate_random_sizes] produces them.  When the two loops have run, the
    calls they made follow the protocol: every release passes a block the
    caller holds, with a size of the class it was allocated for, so no block
    is released twice or under another class.  At the end the caller holds no
    block, and the counters are those of the seeding. *)
Theorem benchmark_phase_follows_protocol B fuel l total st0 sizes ptrs st1 st2 :
  libc_ok l ->
  preallocate_memory fuel B (initial_state l) = Done (total, st0) ->
  Forall seeded_size sizes ->
  alloc_all sizes st0 = Done (ptrs, st1) ->
  free_all ptrs sizes st1 = Done st2 ->
  length ptrs = length sizes /\
  run (map Allocate sizes ++ zip_with Release ptrs sizes) st0 =
    Done (zip_with Allocated sizes ptrs ++ zip_with Released ptrs sizes, st2) /\
  follows_protocol ∅ (zip_with Allocated sizes ptrs ++ zip_with Released ptrs sizes)
    = true /\
  held_after ∅ (zip_with Allocated sizes ptrs ++ zip_with Released ptrs sizes) = ∅ /\
  preallocated_counts (mem_manager st2) = preallocated_counts (mem_manager st0).
Proof.
  intros Hok Hseed Hall Halloc Hfree.
  destruct (seeded_state_inv _ _ _ _ _ Hok Hseed) as (cls0 & Hinv0).
  destruct (alloc_all_spec sizes st0 ∅ cls0 Hinv0 Hall)
    as (ptrs' & st1' & cls1 & held1 & Halloc' & Hinv1 & Hh1 & Hallocs & _ & Hrel & Hback).
  rewrite Halloc in Halloc'. injection Halloc' as <- <-.
  destruct (alloc_all_run _ _ _ _ Halloc) as [Hlen Hrun1].
  pose proof (free_all_run _ _ _ _ Hlen Hfree) as Hrun2.
  pose proof (run_app _ _ _ _ _ _ _ Hrun1 Hrun2) as Hrun.
  do 2 (split; [done|]).
  split; [by rewrite Hallocs|]. split.
  - unfold held_after in *. by rewrite foldl_app, <- Hh1.
  - by apply run_counts_frame in Hrun.
Qed.

Lemma benchmark_phase_follows_protocol_witness :
  length [4112; 4208; 4096] = length [8; 64; 4] /\
  run (map Allocate [8; 64; 4] ++ zip_with Release [4112; 4208; 4096] [8; 64; 4])
      demo_seeded =
    Done (zip_with Allocated [8; 64; 4] [4112; 4208; 4096]
          ++ zip_with Released [4112; 4208; 4096] [8; 64; 4],
          state_of (free_all [4112; 4208; 4096] [8; 64; 4]
                      (state_after (alloc_all [8; 64; 4] demo_seeded)))) /\
  follows_protocol ∅ (zip_with Allocated [8; 64; 4] [4112; 4208; 4096]
                       ++ zip_with Released [4112; 4208; 4096] [8; 64; 4]) = true /\
  held_after ∅ (zip_with Allocated [8; 64; 4] [4112; 4208; 4096]
                 ++ zip_with Released [4112; 4208; 4096] [8; 64; 4]) = ∅ /\
  preallocated_counts
    (mem_manager (state_of (free_all [4112; 4208; 4096] [8; 64; 4]
                              (state_after (alloc_all [8; 64; 4] demo_seeded))))) =
  preallocated_counts (mem_manager demo_seeded).
Proof.
  apply (benchmark_phase_follows_protocol 40 5 demo_libc 60 demo_seeded [8; 64; 4]
           [4112; 4208; 4096] (state_after (alloc_all [8; 64; 4] demo_seeded))).
  - split; simpl; unfold WORD; lia.
  - vm_compute. reflexivity.
  - repeat constructor; [exists 1 | exists 4 | exists 0];
      (split; [unfold CHUNK_CLASSES; lia | reflexivity]).
  - vm_compute. reflexivity.
  - vm_compute. reflexivity.
Defined.

(** ** [thread_alloc] run by a single thread *)

(** Once the list of class 5 has a block on top, an iteration of the loop
    takes it and puts it back: the state is a fixed point. *)
Lemma thread_alloc_loop_fixed st p nxt n :
  get_free_list st 5 = Done p -> p <> NULL -> next st !! p = Some nxt ->
  thread_alloc_loop n st = Done st.
Proof.
  intros Hhd Hp Hnx.
  destruct (pop_then_push st 128 128 5 p nxt) as (st1 & Hm & _ & Hf);
    try done; try (unfold MAX_CHUNK_SIZE; lia).
  induction n as [| n IH]; [done|].
  cbn [thread_alloc_loop]. rewrite Hm. cbn [bind]. simpl. rewrite Hf. cbn [bind]. done.
Qed.

(** When the first [mm_malloc(128)] of [thread_alloc] returns a block, the
    100000 iterations all use that one block: the loop ends in the state that
    the first release produced, and libc is not called after the first
    allocation. *)
Theorem thread_alloc_reuses_one_block st p st1 :
  mm_malloc 128 st = Done (p, st1) -> p <> NULL ->
  exists st2, mm_free p 128 st1 = Done st2 /\
              thread_alloc st = Done st2 /\
              libc st2 = libc st1.
Proof.
  intros Hm Hp.
  assert (exists hd, get_free_list st1 5 = Done hd) as (hd & Hhd).
  { apply mm_malloc_Done in Hm as Hc.
    destruct Hc as [(_ & -> & _) | (_ & i & head & Hi & Hhead & Hc)]; [done|].
    change (get_chunk_index 128) with (Done (A:=Z) 5) in Hi. injection Hi as <-.
    apply array_get_Done in Hhead as [Hr Hl]. pose proof (lookup_lt_Some _ _ _ Hl) as Hlen.
    destruct Hc as [(_ & _ & nxt & _ & Hset) | (_ & sz & _ & Hcall)].
    - apply set_free_list_Done in Hset as (_ & _ & Hfl & _).
      exists nxt. unfold get_free_list. rewrite Hfl.
      apply array_get_lookup; [done|]. by apply list_lookup_insert_eq.
    - apply call_malloc_eq in Hcall as (Hmm & _). exists head.
      unfold get_free_list. rewrite Hmm. by apply array_get_lookup. }
  pose proof (mm_free_push st1 p 128 5 hd Hp ltac:(lia) ltac:(unfold MAX_CHUNK_SIZE; lia)
                eq_refl Hhd) as Hfree.
  eexists. split; [exact Hfree|]. split; [|done].
  unfold thread_alloc. replace (Z.to_nat 100000) with (S (Z.to_nat 99999)) by lia.
  cbn [thread_alloc_loop]. rewrite Hm. cbn [bind fst snd]. rewrite Hfree. cbn [bind].
  apply array_get_Done in Hhd as [Hr Hl]. pose proof (lookup_lt_Some _ _ _ Hl) as Hlen.
  apply (thread_alloc_loop_fixed _ p hd); [|done|].
  - apply get_free_list_with; [done|]. by apply list_lookup_insert_eq.
  - simpl. apply lookup_insert_eq.
Qed.

Lemma thread_alloc_reuses_one_block_witness :
  exists st2, mm_free 4208 128 (state_after (mm_malloc 128 demo_seeded)) = Done st2 /\
              thread_alloc demo_seeded = Done st2 /\
              libc st2 = libc (state_after (mm_malloc 128 demo_seeded)).
Proof.
  apply (thread_alloc_reuses_one_block demo_seeded 4208).
  - vm_compute. reflexivity.
  - unfold NULL. lia.
Defined.

(** ** The command line *)

Lemma known_option_cases arg :
  known_option arg <->
  arg = "-c" \/ arg = "-f" \/ arg = "-p" \/ arg = "-m" \/ arg = "-t" \/ arg = "-b".
Proof.
  unfold known_option. rewrite !elem_of_cons, elem_of_nil. tauto.
Qed.

(** One call of a stress utility in the loop: the rest of the loop runs only
    if the call comes back. *)
Lemma after_call_spec returns k a arg rest (loop : nat -> list action * option ending) :
  known_option arg -> arg <> "-b" -> (forall total, a <> RunBenchmark total) ->
  ((Forall known_option rest /\
    (forall j, (j < stress_calls rest)%nat -> returns (S k + j)%nat = true)) ->
   (loop (S k)).2 = None /\ length (loop (S k)).1 = stress_calls rest) ->
  ((loop (S k)).2 = None ->
   Forall known_option rest /\
   (forall j, (j < stress_calls rest)%nat -> returns (S k + j)%nat = true)) ->
  (forall e, (loop (S k)).2 = Some e -> e = Returned 1 \/ e = NoReturn) ->
  (forall total, RunBenchmark total ∉ (loop (S k)).1) ->
  let r := after_call returns k a loop in
  ((Forall known_option (arg :: rest) /\
    (forall j, (j < stress_calls (arg :: rest))%nat -> returns (k + j)%nat = true)) ->
   r.2 = None /\ length r.1 = stress_calls (arg :: rest)) /\
  (r.2 = None ->
   Forall known_option (arg :: rest) /\
   (forall j, (j < stress_calls (arg :: rest))%nat -> returns (k + j)%nat = true)) /\
  (forall e, r.2 = Some e -> e = Returned 1 \/ e = NoReturn) /\
  (forall total, RunBenchmark total ∉ r.1).
Proof.
  intros Hknown Hnb Ha Hgood Hback Hends Hnobench.
  assert (stress_calls (arg :: rest) = S (stress_calls rest)) as Hcount
    by (unfold stress_calls; by rewrite filter_cons_True).
  rewrite Hcount. unfold after_call. destruct (returns k) eqn:Hk; cbn [fst snd].
  - split; [|split; [|split]].
    + intros [Hall Hret]. inversion Hall as [| ? ? _ Hall']; subst.
      destruct Hgood as [Hnone Hlen].
      { split; [done|]. intros j Hj.
        replace (S k + j)%nat with (k + S j)%nat by lia. apply Hret. lia. }
      split; [done|]. cbn [length]. by rewrite Hlen.
    + intros Hnone. destruct (Hback Hnone) as [Hall Hret].
      split; [by constructor|]. intros [| j] Hj.
      * by rewrite Nat.add_0_r.
      * replace (k + S j)%nat with (S k + j)%nat by lia. apply Hret. lia.
    + done.
    + intros total Hin. apply elem_of_cons in Hin as [Heq | Hin].
      * by apply (Ha total).
      * by apply (Hnobench total).
  - split; [|split; [|split]].
    + intros [_ Hret]. specialize (Hret 0%nat ltac:(lia)).
      rewrite Nat.add_0_r in Hret. congruence.
    + done.
    + intros e [= <-]. by right.
    + intros total Hin. apply elem_of_cons in Hin as [Heq | Hin].
      * by apply (Ha total).
      * by apply elem_of_nil in Hin.
Qed.

(** The loop runs to its end exactly when every argument is a known option
    and every call it makes comes back; it has then made one call per
    argument other than [-b].  Otherwise it ends with the code 1 of an
    unknown option or in a call that does not come back.  It never starts
    [benchmark]. *)
Lemma main_loop_spec returns args : forall k,
  ((Forall known_option args /\
    (forall j, (j < stress_calls args)%nat -> returns (k + j)%nat = true)) ->
   (main_loop returns args k).2 = None /\
   length (main_loop returns args k).1 = stress_calls args) /\
  ((main_loop returns args k).2 = None ->
   Forall known_option args /\
   (forall j, (j < stress_calls args)%nat -> returns (k + j)%nat = true)) /\
  (forall e, (main_loop returns args k).2 = Some e -> e = Returned 1 \/ e = NoReturn) /\
  (forall total, RunBenchmark total ∉ (main_loop returns args k).1).
Proof.
  induction args as [| arg rest IH]; intros k.
  { cbn [main_loop fst snd]. split; [done|]. split; [|split].
    - intros _. split; [constructor|]. unfold stress_calls. simpl. lia.
    - done.
    - intros total Hin. by apply elem_of_nil in Hin. }
  cbn [main_loop].
  destruct (IH (S k)) as (Hgood & Hback & Hends & Hnobench).
  destruct (String.eqb_spec arg "-c") as [-> | Hc];
    [apply after_call_spec; try done; apply known_option_cases; tauto|].
  destruct (String.eqb_spec arg "-f") as [-> | Hf];
    [apply after_call_spec; try done; apply known_option_cases; tauto|].
  destruct (String.eqb_spec arg "-p") as [-> | Hp];
    [apply after_call_spec; try done; apply known_option_cases; tauto|].
  destruct (String.eqb_spec arg "-m") as [-> | Hm];
    [apply after_call_spec; try done; apply known_option_cases; tauto|].
  destruct (String.eqb_spec arg "-t") as [-> | Ht];
    [apply after_call_spec; try done; apply known_option_cases; tauto|].
  destruct (String.eqb_spec arg "-b") as [-> | Hb].
  - destruct (IH k) as (Hgood' & Hback' & Hends' & Hnobench').
    assert (stress_calls ("-b" :: rest) = stress_calls rest) as ->
      by (unfold stress_calls; rewrite filter_cons_False; [done | by intros H; apply H]).
    split; [|split; [|done]].
    + intros [Hall Hret]. inversion Hall; subst. by apply Hgood'.
    + intros Hnone. destruct (Hback' Hnone) as [Hall Hret].
      split; [constructor; [apply known_option_cases; tauto | done] | done].
  - cbn [fst snd]. split; [|split; [|split]].
    + intros [Hall _]. inversion Hall as [| ? ? Hk _]; subst.
      apply known_option_cases in Hk. tauto.
    + done.
    + intros e [= <-]. by left.
    + intros total Hin. apply elem_of_cons in Hin as [[=] | Hin].
      by apply elem_of_nil in Hin.
Qed.

(** X22.  [main] starts [benchmark] exactly when there is at least one
    argument, every argument is a known option and every stress utility
    called for them has come back; it returns 0 exactly when, in addition,
    [benchmark] comes back.  The only other code it returns is 1, and with
    no argument it prints the usage and returns 1 without calling anything,
    whatever the calls would do. *)
Theorem main_runs_benchmark_iff_options_known returns prog args :
  (RunBenchmark TOTAL_MEMORY ∈ (main returns prog args).1 <->
   args <> [] /\ Forall known_option args /\
   forall k, (k < stress_calls args)%nat -> returns k = true) /\
  ((main returns prog args).2 = Returned 0 <->
   args <> [] /\ Forall known_option args /\
   forall k, (k <= stress_calls args)%nat -> returns k = true) /\
  (forall code, (main returns prog args).2 = Returned code -> code = 0 \/ code = 1) /\
  (args = [] -> main returns prog args = ([PrintUsage], Returned 1)).
Proof.
  unfold main. destruct args as [| arg rest].
  { cbn [length]. change (1 + Z.of_nat 0 <? 2) with true. cbn [fst snd].
    split; [split; [|by intros [? _]]|].
    { intros Hin. apply elem_of_cons in Hin as [[=] | Hin]. by apply elem_of_nil in Hin. }
    split; [split; [done | by intros [? _]]|].
    split; [|done]. intros code [= <-]. by right. }
  destruct (Z.ltb_spec (1 + Z.of_nat (length (arg :: rest))) 2) as [Hlt | _];
    [cbn [length] in Hlt; lia|].
  destruct (main_loop_spec returns (arg :: rest) 0) as (Hgood & Hback & Hends & Hnobench).
  cbn [Nat.add] in Hgood, Hback.
  destruct (main_loop returns (arg :: rest) 0) as [acts [e |]] eqn:Hloop; cbn [fst snd] in *.
  - destruct (Hends e eq_refl) as [-> | ->].
    + split; [split|].
      * intros Hin. by apply Hnobench in Hin.
      * intros (_ & Hall & Hret). by destruct Hgood.
      * split; [split; [done|]|split; [|done]].
        -- intros (_ & Hall & Hret). destruct Hgood; [|done].
           split; [done|]. intros j Hj. apply Hret. lia.
        -- intros code [= <-]. by right.
    + split; [split|].
      * intros Hin. by apply Hnobench in Hin.
      * intros (_ & Hall & Hret). by destruct Hgood.
      * split; [split; [done|]|split; [done|done]].
        intros (_ & Hall & Hret). destruct Hgood; [|done].
        split; [done|]. intros j Hj. apply Hret. lia.
  - destruct (Hback eq_refl) as [Hall Hret].
    destruct (Hgood (conj Hall Hret)) as [_ Hlen].
    split; [split|].
    + done.
    + intros _. apply elem_of_app. right. apply elem_of_cons; by left.
    + split; [split|split; [|done]].
      * intros Hzero. split; [done|]. split; [done|]. intros j Hj.
        destruct (decide (j = stress_calls (arg :: rest))) as [-> | Hne].
        -- rewrite <- Hlen. by destruct (returns (length acts)).
        -- apply Hret. lia.
      * intros (_ & _ & Hret'). by rewrite Hlen, Hret'.
      * intros code. destruct (returns (length acts)); intros [= <-]. by left.
Qed.

(** ** The counters of the workload generator *)

Lemma chunk_size_injective i j :
  0 <= i -> 0 <= j -> 4 * 2 ^ i = 4 * 2 ^ j -> i = j.
Proof.
  intros Hi Hj H. apply (Z.pow_inj_r 2); lia.
Qed.

(** What the loop adds: the sizes it writes behind the [n] already there,
    and for every class as many counts as it wrote sizes of that class. *)
Lemma generate_loop_counts rand total max_count fuel :
  forall calls n used sizes counts n' sizes' counts',
  max_count < WORD ->
  Forall (fun c => 0 <= c < WORD) counts ->
  generate_loop fuel rand total max_count calls (Z.of_nat n) used sizes counts =
    Done (Z.of_nat n', sizes', counts') ->
  exists new,
    length sizes' = length sizes /\
    take n' sizes' = take n sizes ++ new /\
    forall j c, 0 <= j < CHUNK_CLASSES ->
      counts !! Z.to_nat j = Some c ->
      counts' !! Z.to_nat j =
        Some (wrap (c + Z.of_nat (length (filter (fun sz => sz = 4 * 2 ^ j) new)))).
Proof.
  induction fuel as [| fuel IH];
    intros calls n used sizes counts n' sizes' counts' Hmax Hsz Hrun; [discriminate|].
  cbn [generate_loop] in Hrun.
  assert (forall m, Done (A := Z * list Z * list Z) (Z.of_nat n, sizes, counts) =
                    Done (Z.of_nat m, sizes', counts') ->
          exists new, length sizes' = length sizes /\
            take m sizes' = take n sizes ++ new /\
            forall j c, 0 <= j < CHUNK_CLASSES -> counts !! Z.to_nat j = Some c ->
              counts' !! Z.to_nat j =
                Some (wrap (c + Z.of_nat (length (filter (fun sz => sz = 4 * 2 ^ j) new)))))
    as Hstop.
  { intros m [= Hm <- <-]. apply Nat2Z.inj in Hm as <-. exists [].
    split; [done|]. split; [by rewrite app_nil_r|]. intros j c Hj Hc. simpl.
    rewrite Z.add_0_r, wrap_small; [done|].
    by apply (Forall_lookup_1 _ _ _ _ Hsz Hc). }
  destruct ((used <? total) && (Z.of_nat n <? max_count)) eqn:Hcond; [|by apply Hstop].
  apply andb_true_iff in Hcond as [_ Hnum].
  set (i := Z.of_nat (rand calls) mod CHUNK_CLASSES) in *.
  assert (0 <= i < CHUNK_CLASSES) as Hi by (by apply Z.mod_pos_bound).
  rewrite (chunk_size_in_range i) in Hrun by (unfold CHUNK_CLASSES in Hi; lia).
  cbn [bind] in Hrun.
  destruct (total <? wrap (used + 4 * 2 ^ i)); [by apply Hstop|].
  inv_bind Hrun. apply array_set_Done in Hx as (_ & Hlen & ->).
  inv_bind Hrun. rename x into ci. apply array_get_Done in Hx as [_ Hci].
  inv_bind Hrun. apply array_set_Done in Hx as (_ & Hclen & ->).
  rewrite Nat2Z.id in *.
  assert (wrap (Z.of_nat n + 1) = Z.of_nat (S n)) as Hw by (rewrite wrap_small; lia).
  rewrite Hw in Hrun.
  apply IH in Hrun as (new & Hlen' & Htake & Hcounts); [|done|].
  2:{ apply Forall_insert; [done | apply wrap_range]. }
  exists (4 * 2 ^ i :: new). split; [by rewrite Hlen', length_insert|]. split.
  { rewrite Htake.
    rewrite (take_S_r _ _ (4 * 2 ^ i)) by (by apply list_lookup_insert_eq).
    rewrite take_insert_ge by done. by rewrite <- app_assoc. }
  intros j c Hj Hc. destruct (decide (j = i)) as [-> | Hne].
  - assert (ci = c) as -> by congruence.
    rewrite (Hcounts i (wrap (c + 1)) Hi) by (by apply list_lookup_insert_eq).
    rewrite filter_cons_True by done. cbn [length].
    rewrite wrap_add_l. do 2 f_equal. lia.
  - rewrite (Hcounts j c Hj) by (rewrite list_lookup_insert_ne; [done | lia]).
    rewrite filter_cons_False; [done|].
    intros Heq. apply Hne. symmetry. by apply chunk_size_injective; [lia | lia |].
Qed.

(** Starting from counters at zero, as [benchmark] passes them,
    [generate_random_sizes] leaves in [requested_counts[j]] the number of
    generated sizes that are equal to [chunk_sizes[j]]. *)
Theorem generate_random_sizes_counts_requests rand total_size sizes max_count fuel
    num sizes' counts' :
  0 <= num -> max_count < WORD -> length sizes = Z.to_nat max_count ->
  generate_random_sizes fuel rand total_size sizes max_count
    (replicate (Z.to_nat CHUNK_CLASSES) 0) = Done (num, sizes', counts') ->
  forall j, 0 <= j < CHUNK_CLASSES ->
    counts' !! Z.to_nat j =
      Some (Z.of_nat (length (filter (fun sz => sz = 4 * 2 ^ j)
                                (take (Z.to_nat num) sizes')))).
Proof.
  intros Hnum Hmax Hlen Hrun j Hj. unfold generate_random_sizes in Hrun.
  rewrite <- (Z2Nat.id num Hnum) in Hrun.
  change 0 with (Z.of_nat 0) in Hrun at 1.
  apply generate_loop_counts in Hrun as (new & Hlen' & Htake & Hcounts); [|done|].
  2:{ apply Forall_replicate. unfold WORD. lia. }
  simpl in Htake. rewrite Htake.
  rewrite (Hcounts j 0 Hj) by (apply lookup_replicate_2; lia).
  f_equal. apply wrap_small. split; [lia|].
  pose proof (length_filter (fun sz : Z => sz = 4 * 2 ^ j) new) as Hfl.
  assert (length new <= length sizes')%nat as Hnl.
  { rewrite <- Htake, length_take. lia. }
  unfold WORD in *. lia.
Qed.

Lemma generate_random_sizes_counts_requests_witness :
  [0; 1; 0; 0; 1; 0; 0; 0; 0; 0; 0; 0; 0; 0] !! Z.to_nat 4 =
    Some (Z.of_nat (length (filter (fun sz => sz = 4 * 2 ^ 4)
                              (take (Z.to_nat 2) [8; 64; 0])))).
Proof.
  apply (generate_random_sizes_counts_requests demo_rand 100 [0; 0; 0] 3 4 2 [8; 64; 0]).
  - lia.
  - unfold WORD. lia.
  - reflexivity.
  - vm_compute. reflexivity.
  - unfold CHUNK_CLASSES. lia.
Defined.
